(** * omero-cli-zarr: masks to label arrays

    A shallow embedding of [src/omero_zarr/masks.py]: the decoding of a packed
    OMERO bit mask, the inference of the collapsed T/C/Z axes, the broadcast of
    a mask over the planes it applies to, the overlap guard, the two
    compositors ([masks_to_labels], [stack_masks]), [MaskSaver.save] and the
    driver [image_masks_to_zarr].

    Conventions of the model.
    - Exceptions are values of [exn]; a computation that may raise returns a
      [res]; the loops that fill an array thread the array through a small
      state-and-exception monad [M], which keeps the array as it is at the
      moment of a raise (the array lives in the store and is written through).
    - An n-dimensional array is its shape, its dtype and its content, the
      content being read by the leading integer indices (the plane) and the
      two trailing in-plane coordinates.
    - Plane coordinates, rectangle origins and extents are natural numbers:
      the model covers the non-negative values an image plane can have.
    - Attribute metadata (fill colours, the link to the source image) is not
      part of an array's content and is left out; the [labels] registry of the
      group is kept.
    - numpy and zarr are modelled by the behaviour the code relies on, as of
      the numpy 1.x releases the code runs on ([np.bool], [np.fromstring]):
      integer indices are checked against their axis, slices are clipped to
      it, operands are broadcast, an in-place operation casts its result back
      to the dtype of its left operand under the rule same_kind (integers
      wrap around, an integer result is refused by a boolean array), and a
      reshape to a different size raises. *)

From Stdlib Require Import ZArith Lia Bool String Ascii.
From stdpp Require Import base decidable option list gmap strings pretty.

Local Open Scope Z_scope.
Local Open Scope list_scope.

(** ** Exceptions *)

Module Py.

(** The exceptions the modelled code can raise. [MaskOverlaps count] is
    [Exception(f"Mask {count} overlaps with existing labels")] and [NoTarget]
    is [Exception("No target")]. *)
Inductive exn : Type :=
| IndexError
| ValueError
| TypeError
| KeyError
| AssertionError
| UnboundLocalError
| AttributeError
| MaskOverlaps (count : nat)
| NoTarget.

Inductive res (A : Type) : Type :=
| Ok (a : A)
| Raise (e : exn).
Arguments Ok {A} a.
Arguments Raise {A} e.

#[global] Instance res_ret : MRet res := fun A a => Ok a.

#[global] Instance res_bind : MBind res := fun A B k r =>
  match r with
  | Ok a => k a
  | Raise e => Raise e
  end.

#[global] Instance exn_eq_dec : EqDecision exn.
Proof. solve_decision. Defined.

End Py.
Export Py.

(** ** Dimensions and dtypes *)

(** The characters of ["TCZYX"]. *)
Inductive dim : Type := T | C | Z_ | Y | X.

#[global] Instance dim_eq_dec : EqDecision dim.
Proof. solve_decision. Defined.

Definition dim_to_nat (d : dim) : nat :=
  match d with T => 0 | C => 1 | Z_ => 2 | Y => 3 | X => 4 end%nat.

Definition dim_of_nat (n : nat) : option dim :=
  match n with
  | 0 => Some T | 1 => Some C | 2 => Some Z_ | 3 => Some Y | 4 => Some X
  | _ => None
  end%nat.

#[global] Instance dim_countable : Countable dim.
Proof.
  apply (inj_countable dim_to_nat dim_of_nat).
  intros []; reflexivity.
Defined.

(** [DIMENSION_ORDER]: the axis of each dimension name in the array. *)
Definition DIMENSION_ORDER (d : dim) : nat := dim_to_nat d.

Inductive dtype : Type := np_bool | np_int8 | np_int16 | np_int32 | np_int64.

#[global] Instance dtype_eq_dec : EqDecision dtype.
Proof. solve_decision. Defined.

(** [MASK_DTYPE_SIZE]: a dictionary, so a missing key raises [KeyError]. *)
Definition MASK_DTYPE_SIZE (bits : Z) : res dtype :=
  if bits =? 1 then Ok np_bool
  else if bits =? 8 then Ok np_int8
  else if bits =? 16 then Ok np_int16
  else if bits =? 32 then Ok np_int32
  else if bits =? 64 then Ok np_int64
  else Raise KeyError.

(** Width in bits of the signed integer dtypes. *)
Definition int_bits (dt : dtype) : option Z :=
  match dt with
  | np_bool => None
  | np_int8 => Some 8
  | np_int16 => Some 16
  | np_int32 => Some 32
  | np_int64 => Some 64
  end.

(** Two's complement wrap-around of a [w]-bit signed integer. *)
Definition wrap (w : Z) (v : Z) : Z :=
  (v + 2 ^ (w - 1)) mod 2 ^ w - 2 ^ (w - 1).

(** Largest value of a dtype. *)
Definition dtype_max (dt : dtype) : Z :=
  match int_bits dt with
  | Some w => 2 ^ (w - 1) - 1
  | None => 1
  end.

(** [a.astype(dt)] on one element: a boolean array holds [False]/[True],
    written 0/1; an integer array wraps. *)
Definition astype (dt : dtype) (v : Z) : Z :=
  match int_bits dt with
  | Some w => wrap w v
  | None => if v =? 0 then 0 else 1
  end.

(** ** Mask shapes *)

(** An OMERO mask: [theT], [theC], [theZ] after [unwrap] ([None] when the
    plane is not set), [x], [y], [width], [height] after [int(...)], and the
    packed bytes of [getBytes()]. *)
Record Mask : Type := mkMask {
  theT : option nat;
  theC : option nat;
  theZ : option nat;
  mask_x : nat;
  mask_y : nat;
  mask_width : nat;
  mask_height : nat;
  getBytes : list Byte.byte
}.

(** The dimension of a mask along [d] (only T, C and Z are ever asked). *)
Definition mask_dim (d : dim) (m : Mask) : option nat :=
  match d with
  | T => theT m
  | C => theC m
  | Z_ => theZ m
  | _ => None
  end.

(** ** Decoding a packed mask: [_mask_to_binim_yx] *)

(** [np.fromstring(mask_packed, dtype=np.uint8)]. *)
Definition fromstring (bs : list Byte.byte) : list Z :=
  map (fun b => Z.of_N (Byte.to_N b)) bs.

(** The eight bits of one [uint8], most significant first. *)
Definition byte_bits (v : Z) : list Z :=
  map (fun i => Z.b2z (Z.testbit v (7 - Z.of_nat i))) (seq 0 8).

(** [np.unpackbits]. *)
Definition unpackbits (a : list Z) : list Z :=
  flat_map byte_bits a.

(** [np.reshape(a, (h, w))] of a one-dimensional array, row-major; numpy
    raises [ValueError] when the sizes differ. *)
Fixpoint rows_of (h w : nat) (a : list Z) : list (list Z) :=
  match h with
  | O => []
  | S h' => take w a :: rows_of h' w (drop w a)
  end.

Definition reshape (a : list Z) (h w : nat) : res (list (list Z)) :=
  if decide (length a = (h * w)%nat) then Ok (rows_of h w a)
  else Raise ValueError.

(** The tuple [(t, c, z, y, x, h, w)] returned next to the binary image. *)
Definition mask_settings : Type :=
  (option nat * option nat * option nat * nat * nat * nat * nat)%type.

Definition _mask_to_binim_yx (self_dtype : dtype) (mask : Mask)
  : res (list (list Z) * mask_settings) :=
  let t := theT mask in
  let c := theC mask in
  let z := theZ mask in
  let x := mask_x mask in
  let y := mask_y mask in
  let w := mask_width mask in
  let h := mask_height mask in
  let mask_packed := getBytes mask in
  let intarray := fromstring mask_packed in
  let binarray := map (astype self_dtype) (unpackbits intarray) in
  binarray ← reshape (take (w * h) binarray) h w;
  Ok (binarray, (t, c, z, y, x, h, w)).

(** Element [(i, j)] of a two-dimensional array given as its rows. *)
Definition at2 (a : list (list Z)) (i j : nat) : Z :=
  default 0 (row ← a !! i; row !! j).

(** ** Arrays *)

(** The shape of an image or of a label array: [(T, C, Z, Y, X)]. *)
Definition shape5 : Type := (nat * nat * nat * nat * nat)%type.

Definition shape_list (s : shape5) : list nat :=
  let '(t, c, z, y, x) := s in [t; c; z; y; x].

(** [_mask_shape[i] = v] on the five-element list. *)
Definition set_axis (s : shape5) (i : nat) (v : nat) : shape5 :=
  let '(t, c, z, y, x) := s in
  match i with
  | 0 => (v, c, z, y, x)
  | 1 => (t, v, z, y, x)
  | 2 => (t, c, v, y, x)
  | 3 => (t, c, z, v, x)
  | 4 => (t, c, z, y, v)
  | _ => s
  end%nat.

(** A numpy or zarr array. [nd_data a pre y x] is the element whose leading
    indices are [pre] and whose last two indices are [y] and [x]. *)
Record ndarray : Type := mkArray {
  nd_shape : list nat;
  nd_dtype : dtype;
  nd_data : list nat -> nat -> nat -> Z
}.

(** [np.zeros(shape, dtype)], and the content of a dataset just created
    (fill value 0). *)
Definition zeros (shape : list nat) (dt : dtype) : ndarray :=
  mkArray shape dt (fun _ _ _ => 0).

(** The rectangle selected by [a[pre..., y:(y+h), x:(x+w)]]: its origin and
    its extents after the slices are clipped to the array. *)
Record region : Type := mkRegion {
  r_y : nat;
  r_x : nat;
  r_h : nat;
  r_w : nat
}.

(** A slice [lo:(lo+len)] on an axis of [n] elements. *)
Definition clip_start (lo n : nat) : nat := Nat.min lo n.
Definition clip_len (lo len n : nat) : nat :=
  (Nat.min (lo + len) n - Nat.min lo n)%nat.

(** Indexing with the integers [pre] and two slices. An integer index out of
    its axis raises [IndexError]. The callers have asserted the shape of the
    array, so the array has exactly two axes after those of [pre]. *)
Definition select (a : ndarray) (pre : list nat) (y x h w : nat) : res region :=
  let shape := nd_shape a in
  if decide (length shape = (length pre + 2)%nat) then
    if forallb (fun '(i, n) => (i <? n)%nat) (zip pre shape) then
      let ny := default 0%nat (shape !! length pre) in
      let nx := default 0%nat (shape !! S (length pre)) in
      Ok (mkRegion (clip_start y ny) (clip_start x nx)
                   (clip_len y h ny) (clip_len x w nx))
    else Raise IndexError
  else Raise IndexError.

(** Broadcasting of one axis: equal extents, or one of them is 1. *)
Definition broadcast_dim (a b : nat) : option nat :=
  if decide (a = b) then Some a
  else if decide (a = 1%nat) then Some b
  else if decide (b = 1%nat) then Some a
  else None.

(** The position read on an axis of extent [n] for position [i] of the
    broadcast result. *)
Definition bidx (n i : nat) : nat := if decide (n = 1%nat) then 0%nat else i.

(** Truth value of an array element. *)
Definition truthy (v : Z) : bool := negb (v =? 0).

(** [np.any(np.logical_and(a[pre..., y:(y+h), x:(x+w)].astype(np.bool),
    binim))] for a [binim] of shape [(h, w)] and the selected region [r]. *)
Definition any_overlap (a : ndarray) (pre : list nat) (r : region)
    (binim : list (list Z)) (h w : nat) : res bool :=
  match broadcast_dim (r_h r) h, broadcast_dim (r_w r) w with
  | Some bh, Some bw =>
      Ok (existsb (fun i =>
            existsb (fun j =>
              truthy (nd_data a pre (r_y r + bidx (r_h r) i)
                                    (r_x r + bidx (r_w r) j))
              && truthy (at2 binim (bidx h i) (bidx w j)))
            (seq 0 bw))
          (seq 0 bh))
  | _, _ => Raise ValueError
  end.

Definition in_region (r : region) (y x : nat) : bool :=
  (r_y r <=? y)%nat && (y <? r_y r + r_h r)%nat
  && (r_x r <=? x)%nat && (x <? r_x r + r_w r)%nat.

(** The content after [a[pre..., y:(y+h), x:(x+w)] = f(old, v)], where the
    right operand [v] of shape [(h, w)] is broadcast to the region. *)
Definition update_region (a : ndarray) (pre : list nat) (r : region)
    (v : list (list Z)) (h w : nat) (k : Z) : ndarray :=
  mkArray (nd_shape a) (nd_dtype a)
    (fun pre' y x =>
       if bool_decide (pre' = pre) && in_region r y x
       then astype (nd_dtype a)
              (nd_data a pre' y x
               + at2 v (bidx h (y - r_y r)) (bidx w (x - r_x r)) * k)
       else nd_data a pre' y x).

(** [a[pre..., y:(y+h), x:(x+w)] += v * k]: the region is read, numpy adds in
    place and the result is written back.
    - [rhs_int] tells whether the right operand is of integer kind: the
      product of an array with a Python integer always is, the bare binary
      image is when the saver's dtype is. In-place ufuncs cast their result
      with the rule same_kind, which refuses integer to boolean
      ([TypeError]); every other combination here is accepted, integers wrap
      and booleans add as logical or.
    - the right operand must broadcast to the shape of the region
      ([ValueError]). *)
Definition iadd_region (a : ndarray) (pre : list nat) (r : region)
    (v : list (list Z)) (h w : nat) (k : Z) (rhs_int : bool) : res ndarray :=
  if rhs_int && bool_decide (nd_dtype a = np_bool) then Raise TypeError
  else
    match broadcast_dim (r_h r) h, broadcast_dim (r_w r) w with
    | Some bh, Some bw =>
        if decide (bh = r_h r /\ bw = r_w r)
        then Ok (update_region a pre r v h w k)
        else Raise ValueError
    | _, _ => Raise ValueError
    end.

(** ** The state-and-exception monad *)

(** A computation over a mutable object of type [S] (an array being filled,
    the zarr store, a dictionary): it returns the object as it is when the
    computation ends or raises. *)
Definition ST (S A : Type) : Type := S -> S * res A.

#[global] Instance ST_ret {S} : MRet (ST S) := fun A a s => (s, Ok a).

#[global] Instance ST_bind {S} : MBind (ST S) := fun A B k m s =>
  match m s with
  | (s', Ok a) => k a s'
  | (s', Raise e) => (s', Raise e)
  end.

(** The computations on the array being filled. *)
Abbreviation M := (ST ndarray).

(** A pure computation that may raise. *)
Definition lift {S A} (r : res A) : ST S A := fun s => (s, r).

(** A Python [for] loop whose body may raise. *)
Fixpoint for_each {S B} (xs : list B) (body : B -> ST S unit) : ST S unit :=
  match xs with
  | [] => mret tt
  | x :: xs' => body x ≫= fun _ => for_each xs' body
  end.

(** [enumerate]. *)
Definition enumerate {A} (l : list A) : list (nat * A) :=
  zip (seq 0 (length l)) l.

(** ** Broadcast of a mask over planes: [_get_indices] *)

Definition _get_indices (ignored_dimensions : gset dim) (d : dim)
    (d_value : option nat) (d_size : nat) : list nat :=
  if decide (d ∈ ignored_dimensions) then [0%nat]
  else match d_value with
       | Some v => [v]
       | None => seq 0 d_size
       end.

(** ** The label compositor: [masks_to_labels] *)

(** Lines 314-329: the overlap guard and the addition of one binary image
    into one plane [pre]. *)
Definition write_plane (check_overlaps : bool) (count : nat)
    (binim_yx : list (list Z)) (y x h w : nat) (pre : list nat) : M unit :=
  fun labels =>
    let guard : res unit :=
      if check_overlaps then
        r ← select labels pre y x h w;
        hit ← any_overlap labels pre r binim_yx h w;
        if (hit : bool) then Raise (MaskOverlaps count) else Ok tt
      else Ok tt in
    match guard with
    | Raise e => (labels, Raise e)
    | Ok _ =>
        match
          r ← select labels pre y x h w;
          iadd_region labels pre r binim_yx h w (Z.of_nat count + 1) true
        with
        | Ok labels' => (labels', Ok tt)
        | Raise e => (labels, Raise e)
        end
    end.

(** Lines 291-298: the assertions on the shape of the array, for [d] in
    ["TCZYX"]; [off] is 0 for a label array and 1 for a stacked one. *)
Definition assert_shape (ignored_dimensions : gset dim) (off : nat)
    (shape expected : list nat) : res unit :=
  foldl (fun (acc : res unit) d =>
           _ ← acc;
           _ ← (if decide (d ∈ ignored_dimensions) then
                  match shape !! (DIMENSION_ORDER d + off)%nat with
                  | None => Raise IndexError
                  | Some n =>
                      if decide (n = 1%nat) then Ok tt
                      else Raise AssertionError
                  end
                else Ok tt);
           if decide (shape = expected) then Ok tt else Raise AssertionError)
        (Ok tt) [T; C; Z_; Y; X].

(** Lines 300-329: the loops over the ROIs, their masks and the planes. *)
Definition labels_loops (self_dtype : dtype) (masks : list (list Mask))
    (size_t size_c size_z : nat) (ignored_dimensions : gset dim)
    (check_overlaps : bool) : M unit :=
  for_each (enumerate masks) (fun '(count, shapes) =>
    for_each shapes (fun mask =>
      '(binim_yx, (t, c, z, y, x, h, w)) ←
          lift (_mask_to_binim_yx self_dtype mask);
      for_each (_get_indices ignored_dimensions T t size_t) (fun i_t =>
        for_each (_get_indices ignored_dimensions C c size_c) (fun i_c =>
          for_each (_get_indices ignored_dimensions Z_ z size_z) (fun i_z =>
            write_plane check_overlaps count binim_yx y x h w
                        [i_t; i_c; i_z]))))).

(** [masks_to_labels]. The array [labels] is the state; [mask_shape] is the
    five-element tuple built by [save], so [len(mask_shape) > 3] holds.
    A zarr array is false when its first extent is 0: the loops then fill a
    fresh numpy array, which has no [attrs], and the zarr array is not
    touched. *)
Definition masks_to_labels (self_dtype : dtype) (masks : list (list Mask))
    (mask_shape : shape5) (ignored_dimensions : gset dim)
    (check_overlaps : bool) : M unit :=
  fun labels =>
    let '(size_t, size_c, size_z, _, _) := mask_shape in
    let body (arr : ndarray) : ndarray * res unit :=
      match assert_shape ignored_dimensions 0 (nd_shape arr)
                         (shape_list mask_shape) with
      | Raise e => (arr, Raise e)
      | Ok _ =>
          labels_loops self_dtype masks size_t size_c size_z
                       ignored_dimensions check_overlaps arr
      end in
    match nd_shape labels with
    | [] => (labels, Raise TypeError)
    | O :: _ =>
        match body (zeros (shape_list mask_shape) np_int64) with
        | (_, Raise e) => (labels, Raise e)
        | (_, Ok _) => (labels, Raise AttributeError)
        end
    | _ => body labels
    end.

(** ** The stack compositor: [stack_masks] *)

(** Lines 377-388; [check_overlaps] is a parameter of the method and is not
    read by its body. *)
Definition stack_loops (self_dtype : dtype) (masks : list (list Mask))
    (size_t size_c size_z : nat) (ignored_dimensions : gset dim) : M unit :=
  for_each (enumerate masks) (fun '(count, shapes) =>
    for_each shapes (fun mask =>
      '(binim_yx, (t, c, z, y, x, h, w)) ←
          lift (_mask_to_binim_yx self_dtype mask);
      for_each (_get_indices ignored_dimensions T t size_t) (fun i_t =>
        for_each (_get_indices ignored_dimensions C c size_c) (fun i_c =>
          for_each (_get_indices ignored_dimensions Z_ z size_z) (fun i_z =>
            fun target =>
              match
                r ← select target [count; i_t; i_c; i_z] y x h w;
                iadd_region target [count; i_t; i_c; i_z] r binim_yx h w 1
                            (bool_decide (self_dtype <> np_bool))
              with
              | Ok target' => (target', Ok tt)
              | Raise e => (target, Raise e)
              end))))).

Definition stack_masks (self_dtype : dtype) (masks : list (list Mask))
    (mask_shape : shape5) (ignored_dimensions : gset dim)
    (check_overlaps : bool) : M unit :=
  fun target =>
    let '(size_t, size_c, size_z, _, _) := mask_shape in
    match nd_shape target with
    | [] => (target, Raise TypeError)
    | O :: _ => (target, Raise NoTarget)
    | _ =>
        match assert_shape ignored_dimensions 1 (nd_shape target)
                (length masks :: shape_list mask_shape) with
        | Raise e => (target, Raise e)
        | Ok _ =>
            stack_loops self_dtype masks size_t size_c size_z
                        ignored_dimensions target
        end
    end.

(** ** The store *)

(** A zarr group: its arrays by name and the [labels] entry of its
    attributes. *)
Record zgroup : Type := mkGroup {
  g_arrays : gmap string ndarray;
  g_labels : option (list string)
}.

(** The root of the store: its groups by name. *)
Abbreviation store := (gmap string zgroup).

(** ** [MaskSaver] *)

(** The fields of a [MaskSaver] that [save] reads. [source_found] is the
    truth value of [ome_zarr.parse_url(source_image)]. *)
Record MaskSaver : Type := mkSaver {
  self_dtype : dtype;
  self_path : string;
  self_style : string;
  image_shape : shape5;
  source_found : bool
}.

(** Lines 124-128: the values of one dimension over all the masks. *)
Definition unique_dims (d : dim) (masks : list (list Mask))
  : gset (option nat) :=
  list_to_set (mask_dim d <$> concat masks).

(** Lines 129-134: the dimensions no mask sets. *)
Definition ignored_dimensions_of (masks : list (list Mask)) : gset dim :=
  foldl (fun (ignored_dimensions : gset dim) d =>
           if decide (unique_dims d masks = {[ None ]})
           then ignored_dimensions ∪ {[ d ]}
           else ignored_dimensions)
        ∅ [T; C; Z_].

(** Lines 156-160: [mask_shape] is assigned in the body of the loop over the
    ignored dimensions, so it is bound only when the loop runs at least
    once. The result is [None] when the name is unbound. *)
Definition mask_shape_of (image_shape : shape5)
    (ignored_dimensions : gset dim) : option shape5 :=
  snd (foldl (fun '(_mask_shape, _) d =>
                let _mask_shape' := set_axis _mask_shape (DIMENSION_ORDER d) 1 in
                (_mask_shape', Some _mask_shape'))
             (image_shape, None) (elements ignored_dimensions)).

(** Lines 203-210: the registry of label names of the group. *)
Definition register_label (name : string) (g : zgroup) : zgroup :=
  match g_labels g with
  | Some names =>
      if decide (name ∈ names) then g
      else mkGroup (g_arrays g) (Some (names ++ [name]))
  | None => mkGroup (g_arrays g) (Some [name])
  end.

Definition put_array (self : MaskSaver) (name : string) (a : ndarray)
    (root : store) : store :=
  alter (fun g => mkGroup (<[name := a]> (g_arrays g)) (g_labels g))
        (self_path self) root.

(** [MaskSaver.save]. The dataset is created in the store before it is
    filled, and is filled in place. *)
Definition save (self : MaskSaver) (masks : list (list Mask)) (name : string)
  : ST store unit :=
  fun root =>
    let ignored_dimensions := ignored_dimensions_of masks in
    if negb (source_found self) then (root, Raise AssertionError) else
    let root :=
      match root !! self_path self with
      | Some _ => root
      | None => <[self_path self := mkGroup ∅ None]> root
      end in
    let mask_shape := mask_shape_of (image_shape self) ignored_dimensions in
    let finish (za : ndarray) (r : res unit) : store * res unit :=
      let root := put_array self name za root in
      match r with
      | Raise e => (root, Raise e)
      | Ok _ => (alter (register_label name) (self_path self) root, Ok tt)
      end in
    if bool_decide (self_style self = "labeled")
       || bool_decide (self_style self = "split") then
      match mask_shape with
      | None => (root, Raise UnboundLocalError)
      | Some mask_shape =>
          let za := zeros (shape_list mask_shape) (self_dtype self) in
          let '(za, r) :=
            masks_to_labels (self_dtype self) masks mask_shape
                            ignored_dimensions true za in
          finish za r
      end
    else if bool_decide (self_style self = "6d") then
      match mask_shape with
      | None => (root, Raise UnboundLocalError)
      | Some mask_shape =>
          let za := zeros (length masks :: shape_list mask_shape)
                          (self_dtype self) in
          let '(za, r) :=
            stack_masks (self_dtype self) masks mask_shape
                        ignored_dimensions true za in
          finish za r
      end
    else (root, Raise AssertionError).

(** ** Python strings *)

Definition is_space (c : ascii) : bool :=
  let n := nat_of_ascii c in
  ((9 <=? n) && (n <=? 13) || (28 <=? n) && (n <=? 32))%nat.

Fixpoint lstrip (s : string) : string :=
  match s with
  | String c s' => if is_space c then lstrip s' else s
  | EmptyString => EmptyString
  end.

Definition str_rev (s : string) : string :=
  string_of_list_ascii (rev (list_ascii_of_string s)).

(** [s.strip()]. *)
Definition strip (s : string) : string :=
  str_rev (lstrip (str_rev (lstrip s))).

(** [s.split(",")]. *)
Fixpoint split_comma (s : string) : list string :=
  match s with
  | EmptyString => [EmptyString]
  | String c s' =>
      let r := split_comma s' in
      if Ascii.eqb c "," then EmptyString :: r
      else match r with
           | hd :: tl => String c hd :: tl
           | [] => [String c EmptyString]
           end
  end.

Definition digit_of (c : ascii) : option Z :=
  let n := nat_of_ascii c in
  if ((48 <=? n) && (n <=? 57))%nat then Some (Z.of_nat n - 48) else None.

(** Decimal digits, with single underscores between digits. *)
Fixpoint int_digits (acc : Z) (after_digit : bool) (s : string) : option Z :=
  match s with
  | EmptyString => if after_digit then Some acc else None
  | String c s' =>
      match digit_of c with
      | Some d => int_digits (10 * acc + d) true s'
      | None =>
          if Ascii.eqb c "_" && after_digit then int_digits acc false s'
          else None
      end
  end.

(** [int(s)] of a string: surrounding white space, an optional sign, decimal
    digits; [ValueError] otherwise. *)
Definition py_int (s : string) : res Z :=
  let body (s : string) : res Z :=
    match int_digits 0 false s with
    | Some v => Ok v
    | None => Raise ValueError
    end in
  match strip s with
  | String c s' =>
      if Ascii.eqb c "-" then v ← body s'; Ok (- v)
      else if Ascii.eqb c "+" then body s'
      else body (String c s')
  | EmptyString => body EmptyString
  end.

(** ** Python dictionaries, in insertion order *)

Fixpoint dict_set {K V} `{EqDecision K} (k : K) (v : V) (d : list (K * V))
  : list (K * V) :=
  match d with
  | [] => [(k, v)]
  | (k', v') :: d' =>
      if decide (k = k') then (k, v) :: d' else (k', v') :: dict_set k v d'
  end.

Fixpoint dict_get {K V} `{EqDecision K} (k : K) (d : list (K * V)) : option V :=
  match d with
  | [] => None
  | (k', v') :: d' => if decide (k = k') then Some v' else dict_get k d'
  end.

(** ** The driver: [image_masks_to_zarr] *)

(** A shape of a ROI: a mask ([isinstance(s, MaskI)]) or anything else. *)
Inductive Shape : Type :=
| MaskI (m : Mask)
| OtherShape.

Record ROI : Type := mkROI {
  roi_id : Z;
  copyShapes : list Shape
}.

(** The command-line arguments. [label_map] is the content of the label-map
    file, line by line, when the argument is given. *)
Record Args : Type := mkArgs {
  label_bits : string;
  style : string;
  label_path : string;
  label_name : string;
  label_map : option (list string);
  source_image_found : bool
}.

(** Lines 37-47: the masks of each ROI that has some. *)
Definition collect_masks (rois : list ROI) : list (Z * list Mask) :=
  foldl (fun masks roi =>
           let mask_shapes :=
             omap (fun s => match s with MaskI m => Some m | OtherShape => None end)
                  (copyShapes roi) in
           if (0 <? length mask_shapes)%nat
           then dict_set (roi_id roi) mask_shapes masks
           else masks)
        [] rois.

(** Lines 51-55. *)
Definition select_dtype (args : Args) : res dtype :=
  bits ← py_int (label_bits args);
  dtype ← MASK_DTYPE_SIZE bits;
  if bool_decide (style args = "labeled") && bool_decide (label_bits args = "1")
  then MASK_DTYPE_SIZE 64
  else Ok dtype.

(** Lines 74-76: one line of the label-map file. [label_map[name]] creates
    the entry of a [defaultdict(list)] before the ROI is looked up. *)
Definition parse_line (roi_map : list (Z * list Mask)) (line : string)
  : ST (list (string * list (list Mask))) unit :=
  fun label_map =>
    let line := strip line in
    match split_comma line with
    | [sid; name; roi] =>
        let values := default [] (dict_get name label_map) in
        let label_map := dict_set name values label_map in
        match
          n ← py_int roi;
          match dict_get n roi_map with
          | Some r => Ok r
          | None => Raise KeyError
          end
        with
        | Ok r => (dict_set name (values ++ [r]) label_map, Ok tt)
        | Raise e => (label_map, Raise e)
        end
    | _ => (label_map, Raise ValueError)
    end.

(** Lines 67-78: the label map read under [try]; the exception, if any, is
    caught and printed, and the dictionary stays as it is at that point. *)
Definition read_label_map (roi_map : list (Z * list Mask))
    (lines : list string)
  : list (string * list (list Mask)) * res unit :=
  for_each lines (parse_line roi_map) [].

Definition image_masks_to_zarr (image_shape : shape5) (rois : list ROI)
    (args : Args) : ST store unit :=
  let masks := collect_masks rois in
  dtype ← lift (select_dtype args);
  if (0 <? length masks)%nat then
    let saver := mkSaver dtype (label_path args) (style args) image_shape
                         (source_image_found args) in
    if bool_decide (style args = "split") then
      for_each masks (fun '(roi_id, roi) => save saver [roi] (pretty roi_id))
    else
      match label_map args with
      | Some lines =>
          let roi_map := masks in
          let '(label_map, _) := read_label_map roi_map lines in
          for_each label_map (fun '(name, values) => save saver values name)
      | None => save saver (snd <$> masks) (label_name args)
      end
  else mret tt.

(** ** Definitions used to state the properties *)

(** Bit [k] of a packed buffer, the most significant bit of byte 0 being
    bit 0. *)
Definition packed_bit (bs : list Byte.byte) (k : nat) : Z :=
  match bs !! (k / 8)%nat with
  | Some b => Z.b2z (N.testbit (Byte.to_N b) (7 - N.of_nat (k mod 8)))
  | None => 0
  end.

(** Extent of axis [i] of a shape. *)
Definition axis (s : shape5) (i : nat) : nat :=
  default 0%nat (shape_list s !! i).

(** The rows of the plane [pre] of an array, for display. *)
Definition plane_rows (a : ndarray) (pre : list nat) : list (list Z) :=
  let n := length (nd_shape a) in
  let ny := default 0%nat (nd_shape a !! (n - 2)%nat) in
  let nx := default 0%nat (nd_shape a !! (n - 1)%nat) in
  map (fun y => map (fun x => nd_data a pre y x) (seq 0 nx)) (seq 0 ny).

(** The planes a mask is broadcast to: the Cartesian product of its three
    index lists, in the order of the loops. *)
Definition mask_planes (ignored_dimensions : gset dim) (mask_shape : shape5)
    (m : Mask) : list (list nat) :=
  i_t ← _get_indices ignored_dimensions T (theT m) (axis mask_shape 0);
  i_c ← _get_indices ignored_dimensions C (theC m) (axis mask_shape 1);
  i_z ← _get_indices ignored_dimensions Z_ (theZ m) (axis mask_shape 2);
  [[i_t; i_c; i_z]].

(** One step of the loops of a compositor: a mask is decoded, then its
    binary image is written to one plane after the other. *)
Inductive step : Type :=
| Decode (mask : Mask)
| Write (count : nat) (mask : Mask) (pre : list nat).

Definition mask_steps (ignored_dimensions : gset dim) (mask_shape : shape5)
    (count : nat) (mask : Mask) : list step :=
  Decode mask :: (Write count mask <$> mask_planes ignored_dimensions mask_shape mask).

(** The steps of [masks_to_labels] on a grouping, in the order of the
    loops. *)
Definition steps_of (ignored_dimensions : gset dim) (mask_shape : shape5)
    (masks : list (list Mask)) : list step :=
  '(count, shapes) ← enumerate masks;
  mask ← shapes;
  mask_steps ignored_dimensions mask_shape count mask.

Definition run_step (self_dtype : dtype) (check_overlaps : bool) (s : step)
  : M unit :=
  match s with
  | Decode mask => _ ← lift (_mask_to_binim_yx self_dtype mask); mret tt
  | Write count mask pre =>
      '(binim_yx, (t, c, z, y, x, h, w)) ←
          lift (_mask_to_binim_yx self_dtype mask);
      write_plane check_overlaps count binim_yx y x h w pre
  end.

(** The pixels of the rectangle of a mask whose bit is set. *)
Definition mask_pixel (m : Mask) (y x : nat) : bool :=
  (mask_y m <=? y)%nat && (y <? mask_y m + mask_height m)%nat
  && (mask_x m <=? x)%nat && (x <? mask_x m + mask_width m)%nat
  && (packed_bit (getBytes m)
        ((y - mask_y m) * mask_width m + (x - mask_x m)) =? 1).

(** The pixels of a mask in the array: [covers ... m pre y x] holds when
    plane [pre] is one of the planes the mask is broadcast to, [(y, x)] lies
    in its rectangle and its bit there is set. *)
Definition covers (ignored_dimensions : gset dim) (mask_shape : shape5)
    (m : Mask) (pre : list nat) (y x : nat) : bool :=
  bool_decide (pre ∈ mask_planes ignored_dimensions mask_shape m)
  && mask_pixel m y x.

(** Two masks share no pixel. *)
Definition disjoint_masks (ignored_dimensions : gset dim) (mask_shape : shape5)
    (m m' : Mask) : Prop :=
  forall pre y x,
    ~ (covers ignored_dimensions mask_shape m pre y x = true
       /\ covers ignored_dimensions mask_shape m' pre y x = true).

(** [R] holds between every element of a list and every later one. *)
Fixpoint pairwise {A} (R : A -> A -> Prop) (l : list A) : Prop :=
  match l with
  | [] => True
  | x :: l' => Forall (R x) l' /\ pairwise R l'
  end.

(** A mask that [masks_to_labels] can write into an array of shape
    [mask_shape]: its buffer holds its bits, its rectangle lies in the plane
    and the planes it names exist. *)
Definition well_formed (ignored_dimensions : gset dim) (mask_shape : shape5)
    (m : Mask) : Prop :=
  (mask_width m * mask_height m <= 8 * length (getBytes m))%nat
  /\ (mask_y m + mask_height m <= axis mask_shape 3)%nat
  /\ (mask_x m + mask_width m <= axis mask_shape 4)%nat
  /\ forall d v,
      d ∈ [T; C; Z_] -> d ∉ ignored_dimensions -> mask_dim d m = Some v ->
      (v < axis mask_shape (DIMENSION_ORDER d))%nat.

(** The checks at the head of [masks_to_labels] pass: the array is true
    (its first extent is not 0), it has the shape [mask_shape], and the
    ignored dimensions have extent 1. *)
Definition accepts (ignored_dimensions : gset dim) (mask_shape : shape5)
    (labels : ndarray) : Prop :=
  nd_shape labels = shape_list mask_shape
  /\ (0 < axis mask_shape 0)%nat
  /\ forall d, d ∈ ignored_dimensions ->
       axis mask_shape (DIMENSION_ORDER d) = 1%nat.

(** The content of plane [pre] after one in-place addition to its region. *)
Definition added (L : ndarray) (pre : list nat) (r : region)
    (binim : list (list Z)) (h w : nat) (k : Z) (y x : nat) : Z :=
  if in_region r y x
  then astype (nd_dtype L)
         (nd_data L pre y x
          + at2 binim (bidx h (y - r_y r)) (bidx w (x - r_x r)) * k)
  else nd_data L pre y x.

(** The pixels and the label of one step. *)
Definition step_covers (s : step) (pre : list nat) (y x : nat) : bool :=
  match s with
  | Decode _ => false
  | Write _ m pre0 => bool_decide (pre = pre0) && mask_pixel m y x
  end.

Definition step_count (s : step) : nat :=
  match s with
  | Decode _ => 0%nat
  | Write count _ _ => count
  end.

Definition step_disjoint (s s' : step) : Prop :=
  forall pre y x,
    ~ (step_covers s pre y x = true /\ step_covers s' pre y x = true).

(** A step that runs without raising on an array of shape [mask_shape] and
    dtype [dt]. *)
Definition step_ok (ignored_dimensions : gset dim) (mask_shape : shape5)
    (dt : dtype) (s : step) : Prop :=
  match s with
  | Decode m => well_formed ignored_dimensions mask_shape m
  | Write count m pre =>
      well_formed ignored_dimensions mask_shape m
      /\ pre ∈ mask_planes ignored_dimensions mask_shape m
      /\ Z.of_nat count + 1 <= dtype_max dt
  end.

(** The array holds, at every pixel of a step of [P], the label of that
    step, and 0 at the pixels of no step. *)
Definition labelled_by (P : list step) (L : ndarray) : Prop :=
  forall pre y x,
    (forall s, s ∈ P -> step_covers s pre y x = true ->
       nd_data L pre y x = Z.of_nat (step_count s) + 1)
    /\ ((forall s, s ∈ P -> step_covers s pre y x = false) ->
        nd_data L pre y x = 0).

(** The masks of a grouping, each with the ordinal of its ROI. *)
Definition counted (masks : list (list Mask)) : list (nat * Mask) :=
  '(count, shapes) ← enumerate masks;
  (fun m => (count, m)) <$> shapes.

(** The array stored under [path/name], if any. *)
Definition dataset (root : store) (path name : string) : option ndarray :=
  g ← root !! path; g_arrays g !! name.

(** The mask shapes of a ROI, and its entry in the dictionary of masks. *)
Definition roi_masks (roi : ROI) : list Mask :=
  omap (fun s => match s with MaskI m => Some m | OtherShape => None end)
       (copyShapes roi).

Definition roi_entry (roi : ROI) : option (Z * list Mask) :=
  if (0 <? length (roi_masks roi))%nat
  then Some (roi_id roi, roi_masks roi) else None.

(** The [labels] registry of the group [path]. *)
Definition registry (root : store) (path : string) : option (list string) :=
  root !! path ≫= g_labels.



(** An entry of a label array for [n] ROIs that is the background or the
    label of one ROI. *)
Definition single_label (n : nat) (v : Z) : Prop :=
  v = 0 \/ exists k : nat, (k < n)%nat /\ v = Z.of_nat k + 1.

(** One step of the loops of [stack_masks] (lines 377-388): the binary
    image goes, as it is, into plane [pre] of the slice of its group. *)
Definition run_stack_step (self_dtype : dtype) (s : step) : M unit :=
  match s with
  | Decode mask => _ ← lift (_mask_to_binim_yx self_dtype mask); mret tt
  | Write count mask pre =>
      '(binim_yx, (t, c, z, y, x, h, w)) ←
          lift (_mask_to_binim_yx self_dtype mask);
      ((fun target =>
          match
            r ← select target (count :: pre) y x h w;
            iadd_region target (count :: pre) r binim_yx h w 1
                        (bool_decide (self_dtype <> np_bool))
          with
          | Ok target' => (target', Ok tt)
          | Raise e => (target, Raise e)
          end) : M unit)
  end.

(** The number of elements of a list that satisfy a test. *)
Fixpoint count_if {A} (f : A -> bool) (l : list A) : nat :=
  match l with
  | [] => 0%nat
  | a :: l' => ((if f a then 1 else 0) + count_if f l')%nat
  end.

(** The number of masks of a group that cover a pixel. *)
Definition coverage (ignored_dimensions : gset dim) (mask_shape : shape5)
    (shapes : list Mask) (pre : list nat) (y x : nat) : nat :=
  count_if (fun m => covers ignored_dimensions mask_shape m pre y x) shapes.

(** The number of writes of group [g], among some steps, that cover a
    pixel. *)
Definition hits (P : list step) (g : nat) (pre : list nat) (y x : nat) : nat :=
  count_if (fun s => bool_decide (step_count s = g) && step_covers s pre y x) P.

(** A step that [stack_masks] runs without raising on an array with
    [groups] slices of shape [mask_shape]. *)
Definition stack_step_ok (ignored_dimensions : gset dim) (mask_shape : shape5)
    (groups : nat) (s : step) : Prop :=
  match s with
  | Decode m => well_formed ignored_dimensions mask_shape m
  | Write count m pre =>
      well_formed ignored_dimensions mask_shape m
      /\ pre ∈ mask_planes ignored_dimensions mask_shape m
      /\ (count < groups)%nat
  end.

(** The array holds, at every pixel of every slice, the number of writes of
    [P] that cover it, stored in the dtype [dt]. *)
Definition counted_by (dt : dtype) (P : list step) (L : ndarray) : Prop :=
  forall g pre y x,
    nd_data L (g :: pre) y x = astype dt (Z.of_nat (hits P g pre y x)).

(** What a line of the label map adds when it is well formed: the group name
    of its second field and the masks of the ROI of its third. *)
Definition line_entry (roi_map : list (Z * list Mask)) (line : string)
  : option (string * list Mask) :=
  match split_comma (strip line) with
  | [sid; name; roi] =>
      match py_int roi with
      | Ok n => (fun r => (name, r)) <$> dict_get n roi_map
      | Raise _ => None
      end
  | _ => None
  end.

(** The ROIs that the entries of a label map give to one group, in the order
    of the lines. *)
Definition group_of (name : string) (entries : list (string * list Mask))
  : list (list Mask) :=
  omap (fun e => if decide (e.1 = name) then Some e.2 else None) entries.

(** Closes a goal from [Hin : d ∈ [T; C; Z_]] when [d] is none of them. *)
Ltac not_tcz Hin :=
  repeat (apply elem_of_cons in Hin as [Hin|Hin]; [discriminate Hin|]);
  apply elem_of_nil in Hin; destruct Hin.

(** ** Decoding *)

Section decode.

Lemma astype_bit dt b : astype dt (Z.b2z b) = Z.b2z b.
Proof. destruct dt, b; reflexivity. Qed.

Lemma length_byte_bits v : length (byte_bits v) = 8%nat.
Proof. reflexivity. Qed.

Lemma length_unpackbits a : length (unpackbits a) = (8 * length a)%nat.
Proof.
  induction a as [|v a IH]; [reflexivity|].
  unfold unpackbits in *. cbn [flat_map]. rewrite length_app, IH, length_byte_bits.
  cbn [length]. lia.
Qed.

Lemma lookup_byte_bits v (i : nat) :
  (i < 8)%nat ->
  byte_bits v !! i = Some (Z.b2z (Z.testbit v (7 - Z.of_nat i))).
Proof.
  intros Hi. unfold byte_bits.
  rewrite list_lookup_fmap, lookup_seq_lt by lia. reflexivity.
Qed.

Lemma lookup_unpackbits a (k : nat) v :
  a !! (k / 8)%nat = Some v ->
  unpackbits a !! k
  = Some (Z.b2z (Z.testbit v (7 - Z.of_nat (k mod 8)))).
Proof.
  revert k. induction a as [|u a IH]; intros k Hk; [discriminate|].
  unfold unpackbits in *. cbn [flat_map].
  destruct (decide (k < 8)%nat) as [Hlt|Hge].
  - rewrite Nat.div_small in Hk by lia. injection Hk as ->.
    rewrite lookup_app_l by (rewrite length_byte_bits; lia).
    rewrite Nat.mod_small by lia. apply lookup_byte_bits; lia.
  - rewrite lookup_app_r by (rewrite length_byte_bits; lia).
    rewrite length_byte_bits.
    assert (Hk8 : (k / 8 = S ((k - 8) / 8))%nat).
    { replace k with ((k - 8) + 1 * 8)%nat at 1 by lia.
      rewrite Nat.div_add by lia. lia. }
    rewrite Hk8 in Hk. cbn in Hk.
    rewrite (IH _ Hk). do 4 f_equal.
    replace k with ((k - 8) + 1 * 8)%nat at 2 by lia.
    rewrite Nat.Div0.mod_add. reflexivity.
Qed.

Lemma length_rows_of h w a : length (rows_of h w a) = h.
Proof. revert a. induction h; intros; cbn; [|rewrite IHh]; reflexivity. Qed.

Lemma rows_of_row_length h w a :
  length a = (h * w)%nat -> Forall (fun row => length row = w) (rows_of h w a).
Proof.
  revert a. induction h as [|h IH]; intros a Ha; cbn; constructor.
  - rewrite length_take. lia.
  - apply IH. rewrite length_drop. lia.
Qed.

Lemma rows_of_lookup h w a (i j : nat) :
  (i < h)%nat -> (j < w)%nat ->
  (rows_of h w a !! i ≫= fun row => row !! j) = a !! (i * w + j)%nat.
Proof.
  revert a i. induction h as [|h IH]; intros a i Hi Hj; [lia|].
  destruct i as [|i]; cbn.
  - apply lookup_take_lt. lia.
  - rewrite IH by lia. rewrite lookup_drop. f_equal. lia.
Qed.

End decode.

Lemma unpackbits_packed_bit bs (k : nat) :
  (k < 8 * length bs)%nat ->
  unpackbits (fromstring bs) !! k = Some (packed_bit bs k).
Proof.
  intros Hk. unfold packed_bit.
  assert (Hq : (k / 8 < length bs)%nat)
    by (apply Nat.Div0.div_lt_upper_bound; lia).
  destruct (lookup_lt_is_Some_2 bs _ Hq) as [b Hb]. rewrite Hb.
  rewrite (lookup_unpackbits _ k (Z.of_N (Byte.to_N b))).
  - assert (Hm : (k mod 8 < 8)%nat) by (apply Nat.mod_upper_bound; lia).
    replace (7 - Z.of_nat (k mod 8))
      with (Z.of_N (7 - N.of_nat (k mod 8))) by lia.
    rewrite Z.testbit_of_N. reflexivity.
  - unfold fromstring. rewrite list_lookup_fmap, Hb. reflexivity.
Qed.

Lemma packed_bit_01 bs k : packed_bit bs k = 0 \/ packed_bit bs k = 1.
Proof.
  unfold packed_bit. destruct (bs !! _); [|auto].
  destruct (N.testbit _ _); cbn; auto.
Qed.

Lemma binarray_lookup dt bs (k : nat) :
  (k < 8 * length bs)%nat ->
  map (astype dt) (unpackbits (fromstring bs)) !! k = Some (packed_bit bs k).
Proof.
  intros Hk. change (map (astype dt)) with (fmap (M:=list) (astype dt)).
  rewrite list_lookup_fmap, unpackbits_packed_bit by done. cbn. f_equal.
  destruct (packed_bit_01 bs k) as [-> | ->]; destruct dt; reflexivity.
Qed.

(** What the decoder returns on a buffer that is long enough. *)
Lemma decode_ok dt (m : Mask) :
  (mask_width m * mask_height m <= 8 * length (getBytes m))%nat ->
  exists binim,
    _mask_to_binim_yx dt m
    = Ok (binim, (theT m, theC m, theZ m, mask_y m, mask_x m,
                  mask_height m, mask_width m))
    /\ length binim = mask_height m
    /\ Forall (fun row => length row = mask_width m) binim
    /\ forall i j : nat,
        (i < mask_height m)%nat -> (j < mask_width m)%nat ->
        (binim !! i ≫= fun row => row !! j)
        = Some (packed_bit (getBytes m) (i * mask_width m + j)).
Proof.
  intros Hlen. unfold _mask_to_binim_yx.
  set (bin := map (astype dt) (unpackbits (fromstring (getBytes m)))).
  assert (Hbin : length bin = (8 * length (getBytes m))%nat).
  { unfold bin, fromstring.
    rewrite !length_map, length_unpackbits, length_map. reflexivity. }
  assert (Htake : length (take (mask_width m * mask_height m) bin)
                  = (mask_height m * mask_width m)%nat).
  { rewrite length_take. lia. }
  unfold reshape. rewrite decide_True by exact Htake. cbn.
  eexists. split; [reflexivity|]. split; [apply length_rows_of|].
  split; [apply rows_of_row_length; exact Htake|].
  intros i j Hi Hj. rewrite rows_of_lookup by done.
  assert (Hk : (i * mask_width m + j < mask_width m * mask_height m)%nat) by nia.
  rewrite lookup_take_lt by exact Hk.
  unfold bin. apply binarray_lookup. lia.
Qed.

(** C6. For a mask whose packed buffer holds at least [width * height] bits,
    [_mask_to_binim_yx] returns a plane of [height] rows of [width] values,
    together with [(t, c, z, y, x, h, w)]; the value in row [i], column [j]
    is bit [i * width + j] of the buffer, counted from the most significant
    bit of byte 0, and is 0 or 1. In particular the buffer [0xF0] with width
    4 and height 2 gives [[1,1,1,1],[0,0,0,0]]. *)
Theorem C6_decode_msb_first_row_major :
  (forall dt (m : Mask),
      (mask_width m * mask_height m <= 8 * length (getBytes m))%nat ->
      exists binim,
        _mask_to_binim_yx dt m
        = Ok (binim, (theT m, theC m, theZ m, mask_y m, mask_x m,
                      mask_height m, mask_width m))
        /\ length binim = mask_height m
        /\ Forall (fun row => length row = mask_width m) binim
        /\ forall i j : nat,
            (i < mask_height m)%nat -> (j < mask_width m)%nat ->
            (binim !! i ≫= fun row => row !! j)
            = Some (packed_bit (getBytes m) (i * mask_width m + j))
            /\ (packed_bit (getBytes m) (i * mask_width m + j) = 0
                \/ packed_bit (getBytes m) (i * mask_width m + j) = 1))
  /\ (forall dt t c z x y,
        _mask_to_binim_yx dt (mkMask t c z x y 4 2 [Byte.xf0])
        = Ok ([[1; 1; 1; 1]; [0; 0; 0; 0]], (t, c, z, y, x, 2, 4)%nat)).
Proof.
  split.
  - intros dt m Hlen.
    destruct (decode_ok dt m Hlen) as (binim & Hdec & Hh & Hw & Hbits).
    exists binim. repeat split; try assumption.
    + apply Hbits; assumption.
    + apply packed_bit_01.
  - intros dt t c z x y. destruct dt; reflexivity.
Qed.

(** The decoder applied to one byte [0xA5] read as a 2 x 4 plane. *)
Lemma C6_decode_witness :
  exists binim,
    _mask_to_binim_yx np_int8 (mkMask None (Some 1%nat) None 3 5 4 2 [Byte.xa5])
    = Ok (binim, (None, Some 1%nat, None, 5, 3, 2, 4)%nat)
    /\ (binim !! 1%nat ≫= fun row => row !! 3%nat) = Some 1.
Proof.
  destruct (proj1 C6_decode_msb_first_row_major np_int8
              (mkMask None (Some 1%nat) None 3 5 4 2 [Byte.xa5]))
    as (binim & Hdec & _ & _ & Hbits).
  - cbn. lia.
  - exists binim. split; [exact Hdec|].
    destruct (Hbits 1%nat 3%nat) as [Hb _]; [cbn; lia | cbn; lia |].
    exact Hb.
Defined.

(** C9 (as the code has it). A mask whose packed buffer holds fewer than
    [width * height] bits is not decoded to a partial plane: the reshape to
    [(height, width)] raises [ValueError]. *)
Theorem C9_short_buffer_raises dt (m : Mask) :
  (8 * length (getBytes m) < mask_width m * mask_height m)%nat ->
  _mask_to_binim_yx dt m = Raise ValueError.
Proof.
  intros Hlen. unfold _mask_to_binim_yx, reshape.
  rewrite decide_False; [reflexivity|].
  rewrite length_take, !length_map, length_unpackbits.
  unfold fromstring. rewrite length_map. lia.
Qed.

Lemma C9_short_buffer_witness :
  _mask_to_binim_yx np_int64 (mkMask None None None 0 0 3 3 [Byte.xff])
  = Raise ValueError.
Proof.
  apply (C9_short_buffer_raises np_int64
           (mkMask None None None 0 0 3 3 [Byte.xff])).
  cbn. lia.
Defined.

(** C9, counterexample. One byte for a 4 x 3 mask (8 bits for 12 pixels):
    the specification promises a partial plane and no error; the decoder
    returns no plane and raises. *)
Lemma C9_counterexample :
  let m := mkMask None None None 0 0 4 3 [Byte.xf0] in
  (8 * length (getBytes m) < mask_width m * mask_height m)%nat
  /\ ~ (exists binim settings,
          _mask_to_binim_yx np_int64 m = Ok (binim, settings)).
Proof.
  split; [cbn; lia|].
  intros (binim & settings & H). vm_compute in H. discriminate H.
Qed.

(** ** Collapsed dimensions and the shape of the output *)

Section collapse.

Lemma unique_dims_only_none d (masks : list (list Mask)) :
  unique_dims d masks = {[ None ]}
  <-> concat masks <> [] /\ forall m, m ∈ concat masks -> mask_dim d m = None.
Proof.
  unfold unique_dims. split.
  - intros Heq. split.
    + intros Hnil. rewrite Hnil in Heq. cbn in Heq.
      assert (Hin : (None : option nat) ∈ (∅ : gset (option nat)))
        by (rewrite Heq; set_solver).
      set_solver.
    + intros m Hm.
      assert (Hin : mask_dim d m ∈ ({[ None ]} : gset (option nat))).
      { rewrite <- Heq. apply elem_of_list_to_set, list_elem_of_fmap.
        exists m. split; [reflexivity | exact Hm]. }
      set_solver.
  - intros [Hne Hall]. apply set_eq. intros v.
    rewrite elem_of_list_to_set, list_elem_of_fmap, elem_of_singleton.
    split.
    + intros (m & -> & Hm). apply Hall, Hm.
    + intros ->. destruct (concat masks) as [|m l] eqn:E; [done|].
      exists m. split; [symmetry; apply Hall|]; set_solver.
Qed.

Lemma elem_of_ignored_dimensions_of d (masks : list (list Mask)) :
  d ∈ ignored_dimensions_of masks
  <-> d ∈ [T; C; Z_] /\ unique_dims d masks = {[ None ]}.
Proof.
  unfold ignored_dimensions_of. cbn [foldl].
  rewrite !elem_of_cons, elem_of_nil.
  repeat case_decide;
    rewrite ?elem_of_union, ?elem_of_singleton, ?elem_of_empty;
    destruct d; intuition congruence.
Qed.

(** The list [_mask_shape] after the loop over the dimensions [l]. *)
Lemma mask_shape_loop (l : list dim) s b :
  foldl (fun '(_mask_shape, _) d =>
           let _mask_shape' := set_axis _mask_shape (DIMENSION_ORDER d) 1 in
           (_mask_shape', Some _mask_shape'))
        (s, b) l
  = (foldl (fun s d => set_axis s (DIMENSION_ORDER d) 1) s l,
     match l with
     | [] => b
     | _ => Some (foldl (fun s d => set_axis s (DIMENSION_ORDER d) 1) s l)
     end).
Proof.
  revert s b. induction l as [|d l IH]; intros s b; [reflexivity|].
  cbn [foldl]. rewrite IH. destruct l; reflexivity.
Qed.



(** [mask_shape] is unbound exactly when no dimension is ignored. *)
Lemma mask_shape_of_unbound s (ign : gset dim) :
  mask_shape_of s ign = None <-> ign = ∅.
Proof.
  unfold mask_shape_of. rewrite mask_shape_loop. cbn [snd].
  destruct (elements ign) as [|d l] eqn:E.
  - split; [intros _|reflexivity].
    apply leibniz_equiv, elements_empty_inv. rewrite E. constructor.
  - split; [discriminate|]. intros ->. rewrite elements_empty in E.
    discriminate.
Qed.


End collapse.




(** ** Loops *)

Section loops.

Context {S : Type}.

Lemma for_each_ext {B} (xs : list B) (f g : B -> ST S unit) s :
  (forall x s, f x s = g x s) -> for_each xs f s = for_each xs g s.
Proof.
  intros Hfg. revert s. induction xs as [|x xs IH]; intros s; [reflexivity|].
  cbn [for_each]. unfold mbind, ST_bind. rewrite Hfg.
  destruct (g x s) as [s' [[]|e]]; [apply IH | reflexivity].
Qed.

Lemma for_each_app {B} (xs ys : list B) (f : B -> ST S unit) s :
  for_each (xs ++ ys) f s
  = match for_each xs f s with
    | (s', Ok _) => for_each ys f s'
    | (s', Raise e) => (s', Raise e)
    end.
Proof.
  revert s. induction xs as [|x xs IH]; intros s; cbn [for_each app].
  - unfold mret, ST_ret. reflexivity.
  - unfold mbind, ST_bind. destruct (f x s) as [s' [[]|e]]; [apply IH | reflexivity].
Qed.

Lemma for_each_fmap {A B} (k : A -> B) (xs : list A) (f : B -> ST S unit) s :
  for_each (k <$> xs) f s = for_each xs (fun a => f (k a)) s.
Proof.
  revert s. induction xs as [|x xs IH]; intros s; [reflexivity|].
  cbn [for_each fmap list_fmap]. unfold mbind, ST_bind.
  destruct (f (k x) s) as [s' [[]|e]]; [apply IH | reflexivity].
Qed.

(** Two nested loops are one loop over the concatenation. *)
Lemma for_each_nested {A B} (xs : list A) (g : A -> list B)
    (f : B -> ST S unit) s :
  for_each xs (fun a => for_each (g a) f) s = for_each (xs ≫= g) f s.
Proof.
  revert s. induction xs as [|x xs IH]; intros s; [reflexivity|].
  change ((x :: xs) ≫= g) with (g x ++ (xs ≫= g)).
  rewrite for_each_app. cbn [for_each]. unfold mbind at 1, ST_bind.
  destruct (for_each (g x) f s) as [s' [[]|e]]; [apply IH | reflexivity].
Qed.

(** A loop stops at the first iteration that raises and keeps the state of
    that moment. *)
Lemma for_each_raise {B} (xs ys : list B) (x : B) (f : B -> ST S unit)
    s s1 s2 e :
  for_each xs f s = (s1, Ok tt) ->
  f x s1 = (s2, Raise e) ->
  for_each (xs ++ x :: ys) f s = (s2, Raise e).
Proof.
  intros Hxs Hx. rewrite for_each_app, Hxs. cbn [for_each].
  unfold mbind, ST_bind. rewrite Hx. reflexivity.
Qed.

End loops.

(** ** The loops of the compositors as a sequence of steps *)

Section steps.

Lemma for_each_singleton {S B} (x : B) (f : B -> ST S unit) s :
  for_each [x] f s = f x s.
Proof.
  cbn [for_each]. unfold mbind, ST_bind, mret, ST_ret.
  destruct (f x s) as [s' [[]|e]]; reflexivity.
Qed.

(** The three loops over T, C and Z visit the planes of [mask_planes]. *)
Lemma planes_loops {S} ign (mask_shape : shape5) (m : Mask)
    (body : list nat -> ST S unit) s :
  for_each (_get_indices ign T (theT m) (axis mask_shape 0)) (fun i_t =>
    for_each (_get_indices ign C (theC m) (axis mask_shape 1)) (fun i_c =>
      for_each (_get_indices ign Z_ (theZ m) (axis mask_shape 2)) (fun i_z =>
        body [i_t; i_c; i_z]))) s
  = for_each (mask_planes ign mask_shape m) body s.
Proof.
  unfold mask_planes. rewrite <- for_each_nested.
  apply for_each_ext. intros i_t s1. rewrite <- for_each_nested.
  apply for_each_ext. intros i_c s2. rewrite <- for_each_nested.
  apply for_each_ext. intros i_z s3. rewrite for_each_singleton. reflexivity.
Qed.

Lemma decode_settings dt (m : Mask) binim st :
  _mask_to_binim_yx dt m = Ok (binim, st) ->
  st = (theT m, theC m, theZ m, mask_y m, mask_x m, mask_height m,
        mask_width m).
Proof.
  unfold _mask_to_binim_yx. destruct (reshape _ _ _); cbn; congruence.
Qed.

Lemma mask_steps_run dt chk ign (mask_shape : shape5) count (mask : Mask)
    (L : ndarray) :
  ('(binim_yx, (t, c, z, y, x, h, w)) ←
      lift (_mask_to_binim_yx dt mask);
   for_each (_get_indices ign T t (axis mask_shape 0)) (fun i_t =>
     for_each (_get_indices ign C c (axis mask_shape 1)) (fun i_c =>
       for_each (_get_indices ign Z_ z (axis mask_shape 2)) (fun i_z =>
         write_plane chk count binim_yx y x h w [i_t; i_c; i_z])))) L
  = for_each (mask_steps ign mask_shape count mask) (run_step dt chk) L.
Proof.
  unfold mask_steps. cbn [for_each run_step].
  unfold mbind, ST_bind, lift, mret, ST_ret.
  destruct (_mask_to_binim_yx dt mask) as [[binim st]|e] eqn:Hdec;
    [|reflexivity].
  pose proof (decode_settings _ _ _ _ Hdec) as ->.
  rewrite planes_loops, for_each_fmap.
  apply for_each_ext. intros pre s. cbn [run_step].
  unfold mbind, ST_bind, lift. rewrite Hdec. reflexivity.
Qed.

Lemma labels_loops_steps dt (masks : list (list Mask)) st sc sz sy sx ign chk
    (L : ndarray) :
  labels_loops dt masks st sc sz ign chk L
  = for_each (steps_of ign (st, sc, sz, sy, sx) masks) (run_step dt chk) L.
Proof.
  unfold labels_loops, steps_of. rewrite <- for_each_nested.
  apply for_each_ext. intros [count shapes] s1.
  rewrite <- for_each_nested. apply for_each_ext. intros mask s2.
  apply (mask_steps_run dt chk ign (st, sc, sz, sy, sx)).
Qed.

End steps.

(** ** Writing one plane *)

Section write_plane.

Lemma bidx_lt n i : (i < n)%nat -> bidx n i = i.
Proof. unfold bidx. case_decide; lia. Qed.

Lemma broadcast_dim_same n : broadcast_dim n n = Some n.
Proof. unfold broadcast_dim. rewrite decide_True; reflexivity. Qed.

Lemma existsb_seq (f : nat -> bool) n :
  existsb f (seq 0 n) = true <-> exists i, (i < n)%nat /\ f i = true.
Proof.
  rewrite existsb_exists. split.
  - intros (i & Hin & Hf). apply in_seq in Hin. exists i. split; [lia|done].
  - intros (i & Hi & Hf). exists i. split; [apply in_seq; lia|done].
Qed.

(** Indexing succeeds and selects the whole rectangle when the plane exists
    and the rectangle lies in it. *)
Lemma select_in_bounds (a : ndarray) st sc sz sy sx i_t i_c i_z y x h w :
  nd_shape a = [st; sc; sz; sy; sx] ->
  (i_t < st)%nat -> (i_c < sc)%nat -> (i_z < sz)%nat ->
  (y + h <= sy)%nat -> (x + w <= sx)%nat ->
  select a [i_t; i_c; i_z] y x h w = Ok (mkRegion y x h w).
Proof.
  intros Hs Ht Hc Hz Hy Hx. unfold select. rewrite Hs.
  rewrite decide_True by reflexivity.
  cbn [zip zip_with forallb length lookup list_lookup default].
  apply Nat.ltb_lt in Ht, Hc, Hz. rewrite Ht, Hc, Hz. cbn [andb].
  unfold clip_start, clip_len. cbn. f_equal. f_equal; lia.
Qed.

(** The guard on a rectangle that lies in the plane: it finds a pixel set in
    the binary image whose place in the array is already non-zero. *)
Lemma any_overlap_in_bounds (a : ndarray) pre y x h w binim :
  exists b,
    any_overlap a pre (mkRegion y x h w) binim h w = Ok b
    /\ (b = true
        <-> exists i j, (i < h)%nat /\ (j < w)%nat
              /\ at2 binim i j <> 0 /\ nd_data a pre (y + i) (x + j) <> 0).
Proof.
  unfold any_overlap. cbn [r_h r_w r_y r_x]. rewrite !broadcast_dim_same.
  eexists. split; [reflexivity|]. rewrite existsb_seq. split.
  - intros (i & Hi & Hex). apply existsb_seq in Hex as (j & Hj & Hij).
    rewrite !bidx_lt in Hij by assumption.
    apply andb_true_iff in Hij as [Ha Hb]. unfold truthy in Ha, Hb.
    apply negb_true_iff, Z.eqb_neq in Ha, Hb. eauto 10.
  - intros (i & j & Hi & Hj & Hb & Ha). exists i. split; [done|].
    apply existsb_seq. exists j. split; [done|].
    rewrite !bidx_lt by assumption. unfold truthy.
    apply andb_true_iff. split; apply negb_true_iff, Z.eqb_neq; assumption.
Qed.

(** The outcome of [write_plane]: the array keeps its shape and dtype; it is
    either unchanged (the step raised) or the region has been added to. *)
Lemma write_plane_outcome chk count binim y x h w pre (L L' : ndarray) res :
  write_plane chk count binim y x h w pre L = (L', res) ->
  nd_shape L' = nd_shape L /\ nd_dtype L' = nd_dtype L
  /\ ((exists e, res = Raise e /\ L' = L)
      \/ (res = Ok tt
          /\ exists r, select L pre y x h w = Ok r
               /\ L' = update_region L pre r binim h w (Z.of_nat count + 1))).
Proof.
  unfold write_plane, iadd_region. cbn [andb].
  destruct (select L pre y x h w) as [r|e] eqn:Hsel; cbn.
  - destruct (if chk then _ else _) as [[]|e].
    + destruct (bool_decide (nd_dtype L = np_bool)).
      { intros [= <- <-]. eauto 10. }
      destruct (broadcast_dim (r_h r) h) as [bh|];
        [destruct (broadcast_dim (r_w r) w) as [bw|]|];
        try (intros [= <- <-]; eauto 10).
      case_decide; intros [= <- <-]; [|eauto 10].
      split; [reflexivity|]. split; [reflexivity|]. right. eauto.
    + intros [= <- <-]. eauto 10.
  - destruct chk; cbn; intros [= <- <-]; eauto 10.
Qed.


(** A step that finds none adds the image, times [count + 1], to the
    region. *)
Lemma write_plane_add chk count binim y x h w pre (L : ndarray) :
  nd_dtype L <> np_bool ->
  select L pre y x h w = Ok (mkRegion y x h w) ->
  (chk = true -> any_overlap L pre (mkRegion y x h w) binim h w = Ok false) ->
  write_plane chk count binim y x h w pre L
  = (update_region L pre (mkRegion y x h w) binim h w (Z.of_nat count + 1),
     Ok tt).
Proof.
  intros Hdt Hsel Hany. unfold write_plane, iadd_region. rewrite Hsel. cbn.
  rewrite bool_decide_eq_false_2 by exact Hdt.
  rewrite !broadcast_dim_same. rewrite decide_True by done.
  destruct chk; [rewrite Hany by reflexivity|]; reflexivity.
Qed.

End write_plane.

(** ** [masks_to_labels] as a sequence of steps *)

Section labels_steps.

Lemma assert_shape_ok ign off (shape : list nat) :
  (forall d, d ∈ ign -> shape !! (DIMENSION_ORDER d + off)%nat = Some 1%nat) ->
  assert_shape ign off shape shape = Ok tt.
Proof.
  intros Hign. unfold assert_shape.
  generalize [T; C; Z_; Y; X]. intros l.
  induction l as [|d l IH] using rev_ind; [reflexivity|].
  rewrite foldl_app, IH. cbn.
  rewrite (decide_True (P := shape = shape)) by reflexivity.
  destruct (decide (d ∈ ign)) as [Hd|Hd]; [|reflexivity].
  rewrite (Hign d Hd). reflexivity.
Qed.

Lemma masks_to_labels_steps dt (masks : list (list Mask)) mask_shape ign chk
    (L : ndarray) :
  accepts ign mask_shape L ->
  masks_to_labels dt masks mask_shape ign chk L
  = for_each (steps_of ign mask_shape masks) (run_step dt chk) L.
Proof.
  intros (Hshape & Hpos & Hign).
  destruct mask_shape as [[[[st sc] sz] sy] sx].
  unfold masks_to_labels. rewrite Hshape. cbn [shape_list].
  cbn in Hpos. destruct st as [|st]; [lia|].
  rewrite assert_shape_ok.
  - apply labels_loops_steps.
  - intros d Hd. specialize (Hign d Hd). unfold axis in Hign.
    cbn [shape_list] in Hign. rewrite Nat.add_0_r.
    destruct (_ !! DIMENSION_ORDER d) as [n|] eqn:E; cbn in Hign.
    + subst n. reflexivity.
    + discriminate.
Qed.

Lemma run_step_shape dt chk s (L L' : ndarray) res :
  run_step dt chk s L = (L', res) ->
  nd_shape L' = nd_shape L /\ nd_dtype L' = nd_dtype L.
Proof.
  destruct s as [mask|count mask pre]; cbn [run_step];
    unfold mbind, ST_bind, lift, mret, ST_ret;
    destruct (_mask_to_binim_yx dt mask) as [[binim [[[[[[t c] z] y] x] h] w]]|e].
  - intros [= <- <-]. done.
  - intros [= <- <-]. done.
  - intros Hw. apply write_plane_outcome in Hw. tauto.
  - intros [= <- <-]. done.
Qed.


Lemma elem_of_enumerate {A} (l : list A) (i : nat) (x : A) :
  (i, x) ∈ enumerate l <-> l !! i = Some x.
Proof.
  unfold enumerate. rewrite list_elem_of_lookup. split.
  - intros (k & Hk). apply lookup_zip_with_Some in Hk.
    destruct Hk as (a & b & [= -> ->] & Ha & Hb).
    apply lookup_seq in Ha as [-> _]. exact Hb.
  - intros Hi. exists i. apply lookup_zip_with_Some.
    exists i, x. split; [reflexivity|]. split; [|exact Hi].
    apply lookup_seq. split; [reflexivity|].
    apply lookup_lt_Some in Hi. exact Hi.
Qed.

(** The writes among the steps of a grouping. *)
Lemma elem_of_steps_of ign mask_shape (masks : list (list Mask)) count mask pre :
  Write count mask pre ∈ steps_of ign mask_shape masks
  <-> exists shapes, masks !! count = Some shapes /\ mask ∈ shapes
        /\ pre ∈ mask_planes ign mask_shape mask.
Proof.
  unfold steps_of. rewrite list_elem_of_bind. split.
  - intros ([c shapes] & Hin & Hcs). apply elem_of_enumerate in Hcs.
    apply list_elem_of_bind in Hin as (m & Hin & Hm).
    unfold mask_steps in Hin. apply elem_of_cons in Hin as [Hin|Hin];
      [discriminate|].
    apply list_elem_of_fmap in Hin as (pre' & [= -> -> ->] & Hpre). eauto.
  - intros (shapes & Hcs & Hm & Hpre). exists (count, shapes).
    split; [|apply elem_of_enumerate; exact Hcs].
    apply list_elem_of_bind. exists mask. split; [|exact Hm].
    unfold mask_steps. apply elem_of_cons. right.
    apply list_elem_of_fmap. eauto.
Qed.

Lemma elem_of_mask_planes ign mask_shape (m : Mask) pre :
  pre ∈ mask_planes ign mask_shape m
  <-> exists i_t i_c i_z,
        pre = [i_t; i_c; i_z]
        /\ i_t ∈ _get_indices ign T (theT m) (axis mask_shape 0)
        /\ i_c ∈ _get_indices ign C (theC m) (axis mask_shape 1)
        /\ i_z ∈ _get_indices ign Z_ (theZ m) (axis mask_shape 2).
Proof.
  unfold mask_planes. rewrite list_elem_of_bind. split.
  - intros (i_t & Hin & Ht). apply list_elem_of_bind in Hin as (i_c & Hin & Hc).
    apply list_elem_of_bind in Hin as (i_z & Hin & Hz).
    apply list_elem_of_singleton in Hin. eauto 10.
  - intros (i_t & i_c & i_z & -> & Ht & Hc & Hz). exists i_t. split; [|done].
    apply list_elem_of_bind. exists i_c. split; [|done].
    apply list_elem_of_bind. exists i_z. split; [|done].
    apply list_elem_of_singleton. reflexivity.
Qed.

Lemma get_indices_in_range ign d v n i :
  (d ∈ ign -> n = 1%nat) ->
  (d ∉ ign -> forall u, v = Some u -> (u < n)%nat) ->
  i ∈ _get_indices ign d v n -> (i < n)%nat.
Proof.
  intros Hign Hv. unfold _get_indices. case_decide as Hd.
  - intros ->%list_elem_of_singleton. rewrite Hign by done. lia.
  - destruct v as [u|].
    + intros ->%list_elem_of_singleton. apply Hv; done.
    + intros Hi%elem_of_seq. lia.
Qed.

(** The planes of a well-formed mask exist in the array. *)
Lemma mask_planes_in_range ign mask_shape (m : Mask) pre :
  (forall d, d ∈ ign -> axis mask_shape (DIMENSION_ORDER d) = 1%nat) ->
  well_formed ign mask_shape m ->
  pre ∈ mask_planes ign mask_shape m ->
  exists i_t i_c i_z,
    pre = [i_t; i_c; i_z]
    /\ (i_t < axis mask_shape 0)%nat /\ (i_c < axis mask_shape 1)%nat
    /\ (i_z < axis mask_shape 2)%nat.
Proof.
  intros Hign (_ & _ & _ & Hrange) Hpre.
  apply elem_of_mask_planes in Hpre as (i_t & i_c & i_z & -> & Ht & Hc & Hz).
  exists i_t, i_c, i_z. split; [reflexivity|].
  split; [|split].
  - eapply (get_indices_in_range ign T); [apply (Hign T) | | exact Ht].
    intros Hd u Hu. apply (Hrange T u); [set_solver | done | done].
  - eapply (get_indices_in_range ign C); [apply (Hign C) | | exact Hc].
    intros Hd u Hu. apply (Hrange C u); [set_solver | done | done].
  - eapply (get_indices_in_range ign Z_); [apply (Hign Z_) | | exact Hz].
    intros Hd u Hu. apply (Hrange Z_ u); [set_solver | done | done].
Qed.

Lemma select_well_formed ign mask_shape (m : Mask) pre (L : ndarray) :
  nd_shape L = shape_list mask_shape ->
  (forall d, d ∈ ign -> axis mask_shape (DIMENSION_ORDER d) = 1%nat) ->
  well_formed ign mask_shape m ->
  pre ∈ mask_planes ign mask_shape m ->
  select L pre (mask_y m) (mask_x m) (mask_height m) (mask_width m)
  = Ok (mkRegion (mask_y m) (mask_x m) (mask_height m) (mask_width m)).
Proof.
  intros Hshape Hign Hwf Hpre.
  destruct (mask_planes_in_range _ _ _ _ Hign Hwf Hpre)
    as (i_t & i_c & i_z & -> & Ht & Hc & Hz).
  destruct Hwf as (_ & Hy & Hx & _).
  destruct mask_shape as [[[[st sc] sz] sy] sx].
  eapply select_in_bounds; eauto.
Qed.

End labels_steps.

(** ** The overlap guard *)



(** ** Broadcast *)

Section broadcast.

Lemma get_indices_NoDup ign d v n : NoDup (_get_indices ign d v n).
Proof.
  unfold _get_indices. case_decide; [apply NoDup_singleton|].
  destruct v; [apply NoDup_singleton | apply NoDup_seq].
Qed.



Lemma mask_planes_NoDup ign mask_shape (m : Mask) :
  NoDup (mask_planes ign mask_shape m).
Proof.
  unfold mask_planes. apply NoDup_bind; [| |apply get_indices_NoDup].
  - intros t1 t2 pre _ _ H1 H2.
    apply list_elem_of_bind in H1 as (c1 & H1 & _).
    apply list_elem_of_bind in H1 as (z1 & H1 & _).
    apply list_elem_of_bind in H2 as (c2 & H2 & _).
    apply list_elem_of_bind in H2 as (z2 & H2 & _).
    apply list_elem_of_singleton in H1, H2. congruence.
  - intros i_t _. apply NoDup_bind; [| |apply get_indices_NoDup].
    + intros c1 c2 pre _ _ H1 H2.
      apply list_elem_of_bind in H1 as (z1 & H1 & _).
      apply list_elem_of_bind in H2 as (z2 & H2 & _).
      apply list_elem_of_singleton in H1, H2. congruence.
    + intros i_c _. apply NoDup_bind; [| |apply get_indices_NoDup].
      * intros z1 z2 pre _ _ H1 H2.
        apply list_elem_of_singleton in H1, H2. congruence.
      * intros i_z _. apply NoDup_singleton.
Qed.


Lemma update_region_data (L : ndarray) pre r binim h w k pre' y x :
  nd_data (update_region L pre r binim h w k) pre' y x
  = if decide (pre' = pre) then added L pre r binim h w k y x
    else nd_data L pre' y x.
Proof.
  unfold update_region, added. cbn [nd_data].
  destruct (decide (pre' = pre)) as [->|Hne].
  - rewrite bool_decide_eq_true_2 by reflexivity. reflexivity.
  - rewrite bool_decide_eq_false_2 by exact Hne. reflexivity.
Qed.


End broadcast.



(** ** Label compositing of non-overlapping masks *)

Section labelled.

Variable ign : gset dim.
Variable mask_shape : shape5.
Variable dt : dtype.
Hypothesis Hdt : dt <> np_bool.
Hypothesis Hign :
  forall d, d ∈ ign -> axis mask_shape (DIMENSION_ORDER d) = 1%nat.

Lemma astype_id v : 0 <= v <= dtype_max dt -> astype dt v = v.
Proof using Hdt.
  destruct dt; [contradiction| | | |];
    unfold astype, dtype_max, wrap; cbn; intros Hv;
    rewrite Z.mod_small by lia; lia.
Qed.

Lemma dtype_max_pos : 1 <= dtype_max dt.
Proof using Hdt. destruct dt; [contradiction| | | |]; cbn; lia. Qed.

Lemma cover_dec (P : list step) pre y x :
  (forall s, s ∈ P -> step_covers s pre y x = false)
  \/ (exists s, s ∈ P /\ step_covers s pre y x = true).
Proof.
  induction P as [|s P [IH|(s' & Hin & Hs')]].
  - left. intros s Hs. apply elem_of_nil in Hs. destruct Hs.
  - destruct (step_covers s pre y x) eqn:Hs.
    + right. exists s. split; [apply list_elem_of_here | exact Hs].
    + left. intros s' [->|Hin]%elem_of_cons; [exact Hs | apply IH, Hin].
  - right. exists s'. split; [apply list_elem_of_further, Hin | exact Hs'].
Qed.

Lemma pairwise_app_mid {A} (R : A -> A -> Prop) (P : list A) s rest :
  pairwise R (P ++ s :: rest) -> forall s', s' ∈ P -> R s' s.
Proof.
  induction P as [|a P IH]; cbn [app pairwise].
  - intros _ s' Hs'. apply elem_of_nil in Hs'. destruct Hs'.
  - intros [Hall Hrest] s' [->|Hin]%elem_of_cons.
    + rewrite Forall_forall in Hall. apply Hall.
      apply elem_of_app. right. apply list_elem_of_here.
    + apply IH; assumption.
Qed.

Lemma mask_pixel_region (m : Mask) y x :
  mask_pixel m y x
  = in_region (mkRegion (mask_y m) (mask_x m) (mask_height m) (mask_width m))
              y x
    && (packed_bit (getBytes m)
          ((y - mask_y m) * mask_width m + (x - mask_x m)) =? 1).
Proof. reflexivity. Qed.

Lemma decode_at2 (m : Mask) binim st (i j : nat) :
  well_formed ign mask_shape m ->
  _mask_to_binim_yx dt m = Ok (binim, st) ->
  (i < mask_height m)%nat -> (j < mask_width m)%nat ->
  at2 binim i j = packed_bit (getBytes m) (i * mask_width m + j).
Proof.
  intros (Hbuf & _) Hdec Hi Hj.
  destruct (decode_ok dt m Hbuf) as (binim' & Hdec' & _ & _ & Hbits).
  rewrite Hdec in Hdec'. injection Hdec' as -> _.
  unfold at2. rewrite (Hbits i j Hi Hj). reflexivity.
Qed.

(** The labels a pixel can hold stay below the largest value of the dtype. *)
Lemma labelled_in_range (P : list step) (L : ndarray) pre y x :
  labelled_by P L ->
  (forall s, s ∈ P -> Z.of_nat (step_count s) + 1 <= dtype_max dt) ->
  0 <= nd_data L pre y x <= dtype_max dt.
Proof using Hdt.
  intros Hlab Hcount. destruct (Hlab pre y x) as [Hcov Hnone].
  destruct (cover_dec P pre y x) as [Hno|(s & Hin & Hs)].
  - rewrite (Hnone Hno). pose proof dtype_max_pos. lia.
  - rewrite (Hcov s Hin Hs). specialize (Hcount s Hin). lia.
Qed.

(** A pixel of a step that is disjoint from the steps already run is still
    0. *)
Lemma labelled_fresh (P : list step) (L : ndarray) s pre y x :
  labelled_by P L ->
  (forall s', s' ∈ P -> step_disjoint s' s) ->
  step_covers s pre y x = true ->
  nd_data L pre y x = 0.
Proof.
  intros Hlab Hdisj Hs. destruct (Hlab pre y x) as [_ Hnone].
  apply Hnone. intros s' Hin.
  destruct (step_covers s' pre y x) eqn:Hs'; [|reflexivity].
  exfalso. apply (Hdisj s' Hin pre y x). split; assumption.
Qed.

(** One step on an array labelled by the steps before it. *)
Lemma run_step_labelled (P : list step) (L : ndarray) (s : step) :
  nd_shape L = shape_list mask_shape -> nd_dtype L = dt ->
  labelled_by P L ->
  (forall s', s' ∈ P -> step_disjoint s' s) ->
  (forall s', s' ∈ P -> Z.of_nat (step_count s') + 1 <= dtype_max dt) ->
  step_ok ign mask_shape dt s ->
  exists L1,
    run_step dt true s L = (L1, Ok tt)
    /\ forall pre y x,
        nd_data L1 pre y x
        = if step_covers s pre y x then Z.of_nat (step_count s) + 1
          else nd_data L pre y x.
Proof using Hdt Hign.
  intros Hshape Hdtype Hlab Hdisj Hcount Hok.
  destruct s as [m|c m pre0]; cbn [run_step step_covers step_count].
  - destruct Hok as (Hbuf & _).
    destruct (decode_ok dt m Hbuf) as (binim & Hdec & _).
    exists L. unfold mbind, ST_bind, lift, mret, ST_ret. rewrite Hdec.
    split; reflexivity.
  - destruct Hok as (Hwf & Hpre & Hc).
    destruct (decode_ok dt m (proj1 Hwf)) as (binim & Hdec & _).
    unfold mbind, ST_bind, lift. rewrite Hdec.
    set (r := mkRegion (mask_y m) (mask_x m) (mask_height m) (mask_width m)).
    assert (Hcur : forall i j : nat,
               (i < mask_height m)%nat -> (j < mask_width m)%nat ->
               at2 binim i j <> 0 ->
               step_covers (Write c m pre0) pre0 (mask_y m + i) (mask_x m + j)
               = true).
    { intros i j Hi Hj Hbit. cbn [step_covers].
      rewrite bool_decide_eq_true_2 by reflexivity. cbn [andb].
      rewrite mask_pixel_region. apply andb_true_iff. split.
      - unfold in_region. cbn [r_y r_x r_h r_w].
        rewrite !andb_true_iff, !Nat.leb_le, !Nat.ltb_lt. lia.
      - rewrite (decode_at2 m binim _ i j Hwf Hdec Hi Hj) in Hbit.
        replace (mask_y m + i - mask_y m)%nat with i by lia.
        replace (mask_x m + j - mask_x m)%nat with j by lia.
        destruct (packed_bit_01 (getBytes m) (i * mask_width m + j))
          as [H0|H1]; [contradiction | rewrite H1; reflexivity]. }
    rewrite write_plane_add.
    + eexists. split; [reflexivity|]. intros pre y x.
      rewrite update_region_data.
      destruct (decide (pre = pre0)) as [->|Hne];
        [|rewrite bool_decide_eq_false_2 by exact Hne; reflexivity].
      rewrite bool_decide_eq_true_2 by reflexivity. cbn [andb].
      unfold added. rewrite mask_pixel_region. fold r.
      destruct (in_region r y x) eqn:Hin; [|reflexivity]. cbn [andb].
      unfold in_region in Hin. cbn [r r_y r_x r_h r_w] in Hin.
      repeat (apply andb_true_iff in Hin as [Hin ?]).
      repeat match goal with
             | H : (_ <=? _)%nat = true |- _ => apply Nat.leb_le in H
             | H : (_ <? _)%nat = true |- _ => apply Nat.ltb_lt in H
             end.
      cbn [r r_y r_x].
      rewrite !bidx_lt by lia.
      rewrite (decode_at2 m binim _ _ _ Hwf Hdec) by lia.
      rewrite Hdtype.
      destruct (packed_bit_01 (getBytes m)
                  ((y - mask_y m) * mask_width m + (x - mask_x m)))
        as [Hbit|Hbit]; rewrite Hbit;
        [change (0 =? 1) with false | change (1 =? 1) with true]; cbv iota.
      * rewrite Z.mul_0_l, Z.add_0_r. apply astype_id.
        eapply labelled_in_range; eassumption.
      * rewrite (labelled_fresh P L (Write c m pre0) pre0 y x Hlab Hdisj).
        -- rewrite Z.add_0_l, Z.mul_1_l. apply astype_id. lia.
        -- replace y with (mask_y m + (y - mask_y m))%nat at 1 by lia.
           replace x with (mask_x m + (x - mask_x m))%nat at 1 by lia.
           apply Hcur; [lia | lia |].
           rewrite (decode_at2 m binim _ _ _ Hwf Hdec) by lia.
           rewrite Hbit. discriminate.
    + rewrite Hdtype. exact Hdt.
    + apply (select_well_formed ign mask_shape); assumption.
    + intros _.
      destruct (any_overlap_in_bounds L pre0 (mask_y m) (mask_x m)
                  (mask_height m) (mask_width m) binim) as (b & Hb & Hiff).
      rewrite Hb. f_equal.
      destruct b; [exfalso|reflexivity].
      destruct (proj1 Hiff eq_refl) as (i & j & Hi & Hj & Hbit & Hset).
      apply Hset.
      apply (labelled_fresh P L (Write c m pre0) pre0 _ _ Hlab Hdisj).
      apply Hcur; assumption.
Qed.

End labelled.

Lemma pairwise_app {A} (R : A -> A -> Prop) (l1 l2 : list A) :
  pairwise R (l1 ++ l2)
  <-> pairwise R l1 /\ pairwise R l2
      /\ forall a b, a ∈ l1 -> b ∈ l2 -> R a b.
Proof.
  induction l1 as [|x l1 IH]; cbn [app pairwise].
  - split; [intros H|tauto]. split; [exact I|]. split; [exact H|].
    intros a b Ha. apply elem_of_nil in Ha. destruct Ha.
  - rewrite IH, Forall_app, !Forall_forall. split.
    + intros ((Hx1 & Hx2) & H1 & H2 & H12). repeat split; try assumption.
      intros a b [->|Ha]%elem_of_cons Hb; [apply Hx2, Hb | apply H12; assumption].
    + intros ((Hx1 & H1) & H2 & H12). repeat split; try assumption.
      * intros b Hb. apply H12; [apply list_elem_of_here | exact Hb].
      * intros a b Ha Hb. apply H12; [apply list_elem_of_further, Ha | exact Hb].
Qed.

Section pairwise.

Context {A : Type}.

Lemma pairwise_bind {B} (R' : A -> A -> Prop) (R : B -> B -> Prop)
    (f : A -> list B) (l : list A) :
  pairwise R' l ->
  (forall x, x ∈ l -> pairwise R (f x)) ->
  (forall x x' a b, R' x x' -> a ∈ f x -> b ∈ f x' -> R a b) ->
  pairwise R (l ≫= f).
Proof.
  intros Hl Hf Hcross. induction l as [|x l IH]; [exact I|].
  destruct Hl as [Hx Hl]. rewrite bind_cons. apply pairwise_app.
  split; [apply Hf, list_elem_of_here|].
  split; [apply IH; [exact Hl|]; intros y Hy; apply Hf, list_elem_of_further, Hy|].
  intros a b Ha Hb. apply list_elem_of_bind in Hb as (x' & Hb & Hx').
  rewrite Forall_forall in Hx. eapply Hcross; [apply Hx, Hx' | exact Ha | exact Hb].
Qed.

Lemma pairwise_fmap {B} (R : B -> B -> Prop) (g : A -> B) (l : list A) :
  pairwise R (g <$> l) -> pairwise (fun a b => R (g a) (g b)) l.
Proof.
  induction l as [|x l IH]; [intros _; exact I|].
  cbn [fmap list_fmap pairwise]. intros [Hx Hl]. split; [|apply IH, Hl].
  rewrite Forall_forall in Hx. apply Forall_forall. intros y Hy. apply Hx.
  apply list_elem_of_fmap. eauto.
Qed.

End pairwise.

Section grouping.

Variable ign : gset dim.
Variable mask_shape : shape5.

Lemma elem_of_concat {A} (x : A) (ls : list (list A)) :
  x ∈ concat ls <-> exists l, l ∈ ls /\ x ∈ l.
Proof.
  rewrite list_elem_of_In, in_concat. split.
  - intros (l & Hl & Hx). exists l. rewrite !list_elem_of_In. done.
  - intros (l & Hl & Hx). exists l. rewrite <- !list_elem_of_In. done.
Qed.

Lemma steps_of_counted (masks : list (list Mask)) :
  steps_of ign mask_shape masks
  = counted masks ≫= fun '(c, m) => mask_steps ign mask_shape c m.
Proof.
  unfold steps_of, counted. induction (enumerate masks) as [|[c shapes] l IH];
    [reflexivity|].
  rewrite !bind_cons, bind_app, IH. f_equal.
  rewrite list_fmap_bind. reflexivity.
Qed.

Lemma snd_counted (masks : list (list Mask)) :
  snd <$> counted masks = concat masks.
Proof.
  unfold counted, enumerate. generalize 0%nat.
  induction masks as [|shapes masks IH]; intros n; [reflexivity|].
  cbn [length seq zip zip_with concat]. rewrite bind_cons, fmap_app.
  change (zip_with pair (seq (S n) (length masks)) masks)
    with (zip (seq (S n) (length masks)) masks).
  rewrite IH. f_equal.
  rewrite <- list_fmap_compose. clear. induction shapes as [|m shapes IH];
    [reflexivity|]. cbn. rewrite IH. reflexivity.
Qed.

Lemma elem_of_counted (masks : list (list Mask)) c m :
  (c, m) ∈ counted masks
  <-> exists shapes, masks !! c = Some shapes /\ m ∈ shapes.
Proof.
  unfold counted. rewrite list_elem_of_bind. split.
  - intros ([c' shapes] & Hin & Hcs). apply elem_of_enumerate in Hcs.
    apply list_elem_of_fmap in Hin as (m' & [= -> ->] & Hm). eauto.
  - intros (shapes & Hc & Hm). exists (c, shapes).
    split; [|apply elem_of_enumerate, Hc].
    apply list_elem_of_fmap. eauto.
Qed.

Lemma step_covers_covers c (m : Mask) pre0 pre y x :
  pre0 ∈ mask_planes ign mask_shape m ->
  step_covers (Write c m pre0) pre y x = true ->
  pre = pre0 /\ covers ign mask_shape m pre y x = true.
Proof.
  intros Hpre0. cbn [step_covers]. intros [Hpre Hpix]%andb_true_iff.
  apply bool_decide_eq_true in Hpre as ->. split; [reflexivity|].
  unfold covers. rewrite bool_decide_eq_true_2 by exact Hpre0. exact Hpix.
Qed.

Lemma covers_step_covers c (m : Mask) pre y x :
  covers ign mask_shape m pre y x = true ->
  pre ∈ mask_planes ign mask_shape m
  /\ step_covers (Write c m pre) pre y x = true.
Proof.
  unfold covers. intros [Hpre Hpix]%andb_true_iff.
  apply bool_decide_eq_true in Hpre. split; [exact Hpre|].
  cbn [step_covers]. rewrite bool_decide_eq_true_2 by reflexivity. exact Hpix.
Qed.

Lemma mask_steps_pairwise c (m : Mask) :
  pairwise step_disjoint (mask_steps ign mask_shape c m).
Proof.
  unfold mask_steps. cbn [pairwise]. split.
  - apply Forall_forall. intros s _ pre y x [H _]. discriminate H.
  - pose proof (mask_planes_NoDup ign mask_shape m) as Hnd.
    induction Hnd as [|pre0 l Hnotin Hnd IH]; [exact I|].
    cbn [fmap list_fmap pairwise]. split; [|exact IH].
    apply Forall_forall. intros s Hs.
    apply list_elem_of_fmap in Hs as (pre1 & -> & Hpre1).
    intros pre y x [H0 H1]. cbn [step_covers] in H0, H1.
    apply andb_true_iff in H0 as [H0 _]. apply andb_true_iff in H1 as [H1 _].
    apply bool_decide_eq_true in H0, H1. subst. contradiction.
Qed.

Lemma elem_of_mask_steps c (m : Mask) s :
  s ∈ mask_steps ign mask_shape c m
  <-> s = Decode m
      \/ exists pre, s = Write c m pre /\ pre ∈ mask_planes ign mask_shape m.
Proof.
  unfold mask_steps. rewrite elem_of_cons, list_elem_of_fmap. reflexivity.
Qed.

(** The steps of a grouping of pairwise disjoint masks are pairwise
    disjoint. *)
Lemma steps_of_pairwise (masks : list (list Mask)) :
  pairwise (disjoint_masks ign mask_shape) (concat masks) ->
  pairwise step_disjoint (steps_of ign mask_shape masks).
Proof.
  intros Hdisj. rewrite steps_of_counted. rewrite <- snd_counted in Hdisj.
  apply pairwise_fmap in Hdisj.
  eapply pairwise_bind; [exact Hdisj | |].
  - intros [c m] _. apply mask_steps_pairwise.
  - intros [c m] [c' m'] a b Hmm Ha Hb. cbn [snd] in Hmm.
    apply elem_of_mask_steps in Ha as [->|(pre0 & -> & Hpre0)];
      [intros pre y x [H _]; discriminate H|].
    apply elem_of_mask_steps in Hb as [->|(pre1 & -> & Hpre1)];
      [intros pre y x [_ H]; discriminate H|].
    intros pre y x [H0 H1].
    apply (step_covers_covers _ _ _ _ _ _ Hpre0) in H0 as [_ H0].
    apply (step_covers_covers _ _ _ _ _ _ Hpre1) in H1 as [_ H1].
    apply (Hmm pre y x). split; assumption.
Qed.

Lemma elem_of_steps_of_decode (masks : list (list Mask)) (m : Mask) :
  Decode m ∈ steps_of ign mask_shape masks -> m ∈ concat masks.
Proof.
  rewrite steps_of_counted, list_elem_of_bind.
  intros ([c m'] & Hin & Hcm).
  apply elem_of_mask_steps in Hin as [[= ->]|(pre & Hd & _)]; [|discriminate].
  rewrite <- snd_counted. apply list_elem_of_fmap. exists (c, m'). done.
Qed.

End grouping.

Section compositing.

Variable ign : gset dim.
Variable mask_shape : shape5.
Variable dt : dtype.
Hypothesis Hdt : dt <> np_bool.
Hypothesis Hign :
  forall d, d ∈ ign -> axis mask_shape (DIMENSION_ORDER d) = 1%nat.

Lemma step_ok_count s :
  step_ok ign mask_shape dt s -> Z.of_nat (step_count s) + 1 <= dtype_max dt.
Proof using Hdt.
  destruct s as [m|c m pre]; cbn [step_ok step_count].
  - intros _. pose proof (dtype_max_pos dt Hdt). lia.
  - tauto.
Qed.

Lemma labelled_snoc (P : list step) (L L1 : ndarray) s :
  labelled_by P L ->
  (forall s', s' ∈ P -> step_disjoint s' s) ->
  (forall pre y x,
     nd_data L1 pre y x
     = if step_covers s pre y x then Z.of_nat (step_count s) + 1
       else nd_data L pre y x) ->
  labelled_by (P ++ [s]) L1.
Proof.
  intros Hlab Hdisj Hnew pre y x. destruct (Hlab pre y x) as [Hcov Hnone].
  rewrite Hnew. split.
  - intros s0 [Hin | ->%list_elem_of_singleton]%elem_of_app Hs0.
    + destruct (step_covers s pre y x) eqn:Hs.
      * exfalso. apply (Hdisj s0 Hin pre y x). split; assumption.
      * apply Hcov; assumption.
    + rewrite Hs0. reflexivity.
  - intros Hno. rewrite (Hno s) by (apply elem_of_app; right; apply list_elem_of_here).
    apply Hnone. intros s' Hs'. apply Hno. apply elem_of_app. left. exact Hs'.
Qed.

(** Steps that are pairwise disjoint and well formed all run, and leave the
    array labelled by them. *)
Lemma run_steps_labelled (steps P : list step) (L : ndarray) :
  nd_shape L = shape_list mask_shape -> nd_dtype L = dt ->
  labelled_by P L ->
  pairwise step_disjoint (P ++ steps) ->
  Forall (step_ok ign mask_shape dt) (P ++ steps) ->
  exists L',
    for_each steps (run_step dt true) L = (L', Ok tt)
    /\ labelled_by (P ++ steps) L'.
Proof using Hdt Hign.
  revert P L. induction steps as [|s steps IH];
    intros P L Hshape Hdtype Hlab Hdisj Hok.
  - exists L. rewrite app_nil_r. split; [reflexivity | exact Hlab].
  - assert (HP : forall s', s' ∈ P -> step_disjoint s' s)
      by (apply (pairwise_app_mid _ _ _ _ Hdisj)).
    assert (Hcount : forall s', s' ∈ P ->
                       Z.of_nat (step_count s') + 1 <= dtype_max dt).
    { intros s' Hs'. apply step_ok_count.
      rewrite Forall_forall in Hok. apply Hok.
      apply elem_of_app. left. exact Hs'. }
    assert (Hs : step_ok ign mask_shape dt s).
    { rewrite Forall_forall in Hok. apply Hok.
      apply elem_of_app. right. apply list_elem_of_here. }
    destruct (run_step_labelled ign mask_shape dt Hdt Hign P L s
                Hshape Hdtype Hlab HP Hcount Hs) as (L1 & Hrun & Hnew).
    pose proof (run_step_shape _ _ _ _ _ _ Hrun) as [Hs1 Hd1].
    destruct (IH (P ++ [s]) L1) as (L' & Hrest & Hlab').
    + congruence.
    + congruence.
    + eapply labelled_snoc; eassumption.
    + rewrite <- app_assoc. exact Hdisj.
    + rewrite <- app_assoc. exact Hok.
    + exists L'. cbn [for_each]. unfold mbind, ST_bind. rewrite Hrun.
      split; [exact Hrest|]. rewrite <- app_assoc in Hlab'. exact Hlab'.
Qed.

Lemma steps_of_ok (masks : list (list Mask)) :
  Z.of_nat (length masks) <= dtype_max dt ->
  Forall (well_formed ign mask_shape) (concat masks) ->
  Forall (step_ok ign mask_shape dt) (steps_of ign mask_shape masks).
Proof.
  intros Hn Hwf. rewrite Forall_forall in Hwf. apply Forall_forall.
  intros [m|c m pre] Hs; cbn [step_ok].
  - apply Hwf. eapply elem_of_steps_of_decode. exact Hs.
  - apply elem_of_steps_of in Hs as (shapes & Hc & Hm & Hpre).
    split; [|split; [exact Hpre|]].
    + apply Hwf, elem_of_concat. exists shapes. split; [|exact Hm].
      apply list_elem_of_lookup. eauto.
    + apply lookup_lt_Some in Hc. lia.
Qed.

End compositing.

(** C1 (as the code has it). [masks_to_labels] on the array that [save]
    creates for style "labeled" (all zeros, of shape [mask_shape], of an
    integer dtype), for a grouping of [N] ROIs whose masks are well formed
    and pairwise disjoint, with [N] not above the largest value of the
    dtype. The call returns; every entry of the array lies in [0..N]; an
    entry is [k + 1] exactly at the pixels of the masks of the ROI of
    ordinal [k], over the planes they are broadcast to; and it is 0 exactly
    at the pixels of no mask. *)
Theorem C1_labeled_disjoint_union
    dt (masks : list (list Mask)) mask_shape (ign : gset dim) :
  dt <> np_bool ->
  Z.of_nat (length masks) <= dtype_max dt ->
  (0 < axis mask_shape 0)%nat ->
  (forall d, d ∈ ign -> axis mask_shape (DIMENSION_ORDER d) = 1%nat) ->
  Forall (well_formed ign mask_shape) (concat masks) ->
  pairwise (disjoint_masks ign mask_shape) (concat masks) ->
  exists L,
    masks_to_labels dt masks mask_shape ign true
                    (zeros (shape_list mask_shape) dt)
    = (L, Ok tt)
    /\ forall pre y x,
        0 <= nd_data L pre y x <= Z.of_nat (length masks)
        /\ (forall k : nat,
             nd_data L pre y x = Z.of_nat k + 1
             <-> exists shapes m,
                   masks !! k = Some shapes /\ m ∈ shapes
                   /\ covers ign mask_shape m pre y x = true)
        /\ (nd_data L pre y x = 0
            <-> forall m, m ∈ concat masks ->
                  covers ign mask_shape m pre y x = false).
Proof.
  intros Hdt Hn Hpos Hign Hwf Hdisj.
  set (L0 := zeros (shape_list mask_shape) dt).
  assert (Hacc : accepts ign mask_shape L0) by (split; [reflexivity|]; split; assumption).
  destruct (run_steps_labelled ign mask_shape dt Hdt Hign
              (steps_of ign mask_shape masks) [] L0) as (L & Hrun & Hlab).
  - reflexivity.
  - reflexivity.
  - intros pre y x. split; [|reflexivity].
    intros s Hs. apply elem_of_nil in Hs. destruct Hs.
  - apply steps_of_pairwise, Hdisj.
  - apply steps_of_ok; assumption.
  - exists L. split; [rewrite masks_to_labels_steps by exact Hacc; exact Hrun|].
    cbn [app] in Hlab. intros pre y x.
    destruct (Hlab pre y x) as [Hcov Hnone].
    assert (Hfwd : forall k shapes m,
               masks !! k = Some shapes -> m ∈ shapes ->
               covers ign mask_shape m pre y x = true ->
               nd_data L pre y x = Z.of_nat k + 1).
    { intros k shapes m Hk Hm Hc.
      apply (covers_step_covers _ _ k) in Hc as [Hpre Hc].
      apply (Hcov (Write k m pre)); [|exact Hc].
      apply elem_of_steps_of. eauto. }
    assert (Hbwd : forall s,
               s ∈ steps_of ign mask_shape masks ->
               step_covers s pre y x = true ->
               exists k shapes m,
                 masks !! k = Some shapes /\ m ∈ shapes
                 /\ covers ign mask_shape m pre y x = true
                 /\ step_count s = k).
    { intros [m|c m pre0] Hs Hc; [discriminate Hc|].
      apply elem_of_steps_of in Hs as (shapes & Hk & Hm & Hpre0).
      apply (step_covers_covers _ _ _ _ _ _ _ _ Hpre0) in Hc as [_ Hc].
      exists c, shapes, m. auto. }
    destruct (cover_dec (steps_of ign mask_shape masks) pre y x)
      as [Hno|(s & Hs & Hc)].
    + rewrite (Hnone Hno). split; [lia|]. split.
      * intros k. split; [lia|]. intros (shapes & m & Hk & Hm & Hcm).
        rewrite (Hfwd k shapes m Hk Hm Hcm) in Hnone.
        specialize (Hnone Hno). lia.
      * split; [|reflexivity]. intros _ m Hm.
        destruct (covers ign mask_shape m pre y x) eqn:Hcm; [|reflexivity].
        apply elem_of_concat in Hm as (shapes & Hshapes & Hm).
        apply list_elem_of_lookup in Hshapes as (k & Hk).
        rewrite (Hfwd k shapes m Hk Hm Hcm) in Hnone.
        specialize (Hnone Hno). lia.
    + destruct (Hbwd s Hs Hc) as (k & shapes & m & Hk & Hm & Hcm & Hcount).
      rewrite (Hcov s Hs Hc), Hcount.
      pose proof (lookup_lt_Some _ _ _ Hk) as Hlt.
      split; [lia|]. split.
      * intros k'. split.
        -- intros Heq. assert (k' = k) as -> by lia. eauto.
        -- intros (shapes' & m' & Hk' & Hm' & Hcm').
           rewrite <- (Hfwd k' shapes' m' Hk' Hm' Hcm').
           rewrite (Hcov s Hs Hc), Hcount. reflexivity.
      * split; [lia|]. intros Hall.
        rewrite Hall in Hcm; [discriminate|].
        apply elem_of_concat. exists shapes. split; [|exact Hm].
        apply list_elem_of_lookup. eauto.
Qed.

Lemma pairwise_fmap_NoDup {A B} (R : B -> B -> Prop) (g : A -> B) (l : list A) :
  (forall a b, a <> b -> R (g a) (g b)) -> NoDup l -> pairwise R (g <$> l).
Proof.
  intros Hg Hnd. induction Hnd as [|a l Hnotin Hnd IH]; [exact I|].
  cbn [fmap list_fmap pairwise]. split; [|exact IH].
  apply Forall_forall. intros b Hb.
  apply list_elem_of_fmap in Hb as (a' & -> & Ha').
  apply Hg. intros ->. contradiction.
Qed.

(** Masks whose rectangles do not meet are disjoint. *)
Lemma disjoint_rectangles ign mask_shape (m m' : Mask) :
  (mask_y m + mask_height m <= mask_y m'
   \/ mask_y m' + mask_height m' <= mask_y m
   \/ mask_x m + mask_width m <= mask_x m'
   \/ mask_x m' + mask_width m' <= mask_x m)%nat ->
  disjoint_masks ign mask_shape m m'.
Proof.
  intros Hrect pre y x [H1 H2]. unfold covers, mask_pixel in H1, H2.
  rewrite !andb_true_iff, !Nat.leb_le, !Nat.ltb_lt in H1, H2. lia.
Qed.

(** Two ROIs on one plane of a 2 x 4 image: the first has one mask, the
    second has two. *)
Lemma C1_labeled_witness :
  let m1 := mkMask None None None 0 0 2 1 [Byte.xc0] in
  let m2 := mkMask None None None 2 0 2 1 [Byte.x80] in
  let m3 := mkMask None None None 0 1 1 1 [Byte.x80] in
  exists L,
    masks_to_labels np_int16 [[m1]; [m2; m3]] (1, 1, 1, 2, 4)%nat
                    {[ T; C; Z_ ]} true (zeros [1; 1; 1; 2; 4]%nat np_int16)
    = (L, Ok tt)
    /\ nd_data L [0; 0; 0]%nat 0 2 = 2
    /\ nd_data L [0; 0; 0]%nat 0 3 = 0.
Proof.
  intros m1 m2 m3.
  assert (Hwf : forall y x w h bs,
             (w * h <= 8 * length bs)%nat -> (y + h <= 2)%nat -> (x + w <= 4)%nat ->
             well_formed {[ T; C; Z_ ]} (1, 1, 1, 2, 4)%nat
                         (mkMask None None None x y w h bs)).
  { intros y x w h bs Hb Hy Hx. split; [exact Hb|]. split; [exact Hy|].
    split; [exact Hx|]. intros d v Hin Hd. exfalso.
    destruct d; try (apply Hd; vm_compute; reflexivity); not_tcz Hin. }
  destruct (C1_labeled_disjoint_union np_int16 [[m1]; [m2; m3]]
              (1, 1, 1, 2, 4)%nat {[ T; C; Z_ ]}) as (L & Hrun & Hval).
  - discriminate.
  - vm_compute. discriminate.
  - cbn. lia.
  - intros d Hd. destruct d; try reflexivity; vm_compute in Hd; discriminate Hd.
  - repeat (apply List.Forall_cons; [apply Hwf; cbn; lia|]).
    apply List.Forall_nil.
  - cbn [concat app pairwise].
    repeat split;
      repeat (first [apply List.Forall_nil | apply List.Forall_cons]);
      apply disjoint_rectangles; cbn; lia.
  - exists L. split; [exact Hrun|]. split.
    + apply (proj1 (proj2 (Hval [0; 0; 0]%nat 0%nat 2%nat)) 1%nat).
      exists [m2; m3], m2. split; [reflexivity|].
      split; [apply list_elem_of_here | vm_compute; reflexivity].
    + apply (proj2 (proj2 (Hval [0; 0; 0]%nat 0%nat 3%nat))).
      intros m Hm. cbn in Hm.
      repeat (apply elem_of_cons in Hm as [->|Hm]; [vm_compute; reflexivity|]).
      apply elem_of_nil in Hm. destruct Hm.
Defined.

(** C1, counterexample. 128 ROIs of one pixel each on a row of 128 pixels,
    written with 8-bit labels: the masks are pairwise disjoint and the call
    returns, but the pixel of the last ROI holds -128, which is neither its
    label 128 nor a value of [0..128]. *)
Lemma C1_counterexample :
  let masks :=
    (fun i => [mkMask None None None i 0 1 1 [Byte.x80]]) <$> seq 0 128 in
  let ign : gset dim := {[ T; C; Z_ ]} in
  let r := masks_to_labels np_int8 masks (1, 1, 1, 1, 128)%nat ign true
             (zeros [1; 1; 1; 1; 128]%nat np_int8) in
  length masks = 128%nat
  /\ pairwise (disjoint_masks ign (1, 1, 1, 1, 128)%nat) (concat masks)
  /\ snd r = Ok tt
  /\ nd_data (fst r) [0; 0; 0]%nat 0 127 = -128.
Proof.
  intros masks ign r. split; [reflexivity|]. split; [|split].
  - change (concat masks)
      with ((fun i => mkMask None None None i 0 1 1 [Byte.x80]) <$> seq 0 128).
    apply pairwise_fmap_NoDup; [|apply NoDup_seq].
    intros a b Hab. apply disjoint_rectangles. cbn. lia.
  - vm_compute. reflexivity.
  - vm_compute. reflexivity.
Qed.

(** ** [save] and the shape of the output *)

(** [save] cannot name [mask_shape] when no dimension is ignored. *)
Lemma save_unbound_mask_shape (self : MaskSaver) (masks : list (list Mask))
    name (root : store) :
  source_found self = true ->
  self_style self = "labeled" \/ self_style self = "split"
  \/ self_style self = "6d" ->
  ignored_dimensions_of masks = ∅ ->
  snd (save self masks name root) = Raise UnboundLocalError.
Proof.
  intros Hsrc Hstyle Hign. unfold save. rewrite Hsrc, Hign. cbn [negb].
  rewrite (proj2 (mask_shape_of_unbound (image_shape self) ∅) eq_refl).
  destruct Hstyle as [-> | [-> | ->]]; reflexivity.
Qed.

(** C3, at a failing input. A 2 x 2 x 2 x 3 x 3 image and one mask that
    sets T, C and Z: no dimension is ignored, so the loop that binds
    [mask_shape] does not run and [save] raises [UnboundLocalError] before it
    creates any array, for style "labeled" and for style "6d" alike. The
    specification expects an array of shape (2,2,2,3,3), respectively
    (1,2,2,2,3,3). *)
Theorem C3_no_collapsed_axis_unbound_shape :
  let m := mkMask (Some 0%nat) (Some 1%nat) (Some 0%nat) 0 0 1 1 [Byte.x80] in
  let labeled := mkSaver np_int64 "labels" "labeled" (2, 2, 2, 3, 3)%nat true in
  let stacked := mkSaver np_int64 "labels" "6d" (2, 2, 2, 3, 3)%nat true in
  ignored_dimensions_of [[m]] = ∅
  /\ snd (save labeled [[m]] "0" ∅) = Raise UnboundLocalError
  /\ dataset (fst (save labeled [[m]] "0" ∅)) "labels" "0" = None
  /\ snd (save stacked [[m]] "0" ∅) = Raise UnboundLocalError
  /\ dataset (fst (save stacked [[m]] "0" ∅)) "labels" "0" = None.
Proof.
  intros m labeled stacked.
  assert (Hign : ignored_dimensions_of [[m]] = ∅).
  { apply set_eq. intros d. rewrite elem_of_ignored_dimensions_of.
    split; [|intros H; apply elem_of_empty in H; destruct H].
    intros [Hin Hd]. apply unique_dims_only_none in Hd as [_ Hd].
    specialize (Hd m ltac:(apply list_elem_of_here)).
    destruct d; try discriminate Hd; not_tcz Hin. }
  split; [exact Hign|].
  split; [apply save_unbound_mask_shape; auto|].
  split; [vm_compute; reflexivity|].
  split; [apply save_unbound_mask_shape; auto|].
  vm_compute; reflexivity.
Qed.

(** ** The stack compositor has no guard *)

(** C7, at a failing input. One group of two masks on the same plane of a
    3 x 3 image, rectangles [0:2,0:2] and [1:3,1:3], saved with style "6d"
    ([save] passes [check_overlaps=True]): [stack_masks] never reads
    [check_overlaps], the call returns and pixel (1,1) of the slice holds 2.
    The specification expects the write to abort. *)
Theorem C7_stack_masks_ignores_guard :
  let m1 := mkMask None None None 0 0 2 2 [Byte.xf0] in
  let m2 := mkMask None None None 1 1 2 2 [Byte.xf0] in
  let self := mkSaver np_int64 "labels" "6d" (1, 1, 1, 3, 3)%nat true in
  let r := save self [[m1; m2]] "0" ∅ in
  snd r = Ok tt
  /\ (fun a => plane_rows a [0; 0; 0; 0]%nat) <$> dataset (fst r) "labels" "0"
     = Some [[1; 1; 0]; [1; 2; 1]; [0; 1; 1]]
  /\ forall dt masks mask_shape ign target,
      stack_masks dt masks mask_shape ign true target
      = stack_masks dt masks mask_shape ign false target.
Proof.
  intros m1 m2 self r. split; [vm_compute; reflexivity|].
  split; [vm_compute; reflexivity|]. reflexivity.
Qed.

(** ** Boolean label arrays *)

(** The label compositor cannot add into a boolean array: a write that gets
    past the guard raises [TypeError], and the array keeps its content. *)
Lemma write_plane_bool chk count binim y x h w pre (L : ndarray) :
  nd_dtype L = np_bool ->
  exists e, write_plane chk count binim y x h w pre L = (L, Raise e).
Proof.
  intros Hb. unfold write_plane, iadd_region. rewrite Hb. cbn.
  destruct (if chk then _ else _) as [[]|e]; [|eauto].
  destruct (select L pre y x h w); cbn; eauto.
Qed.

(** C10, at a failing input. Style "split" with bit-depth 1 and one ROI
    (id 10) holding a 1 x 1 mask whose bit is set. The dtype is boolean (the
    downgrade to 64 bits is for style "labeled" only) and the array [10] is
    created with it, but the addition of the label into the boolean array
    raises [TypeError]: the pixel of the object is left at False. The
    specification expects it to become True. *)
Theorem C10_split_bool_write_raises :
  let m := mkMask None None None 0 0 1 1 [Byte.x80] in
  let rois := [mkROI 10 [MaskI m]] in
  let args style := mkArgs "1" style "labels" "0" None true in
  let r := image_masks_to_zarr (1, 1, 1, 1, 1)%nat rois (args "split") ∅ in
  select_dtype (args "labeled") = Ok np_int64
  /\ select_dtype (args "split") = Ok np_bool
  /\ covers (ignored_dimensions_of [[m]]) (1, 1, 1, 1, 1)%nat m
            [0; 0; 0]%nat 0 0 = true
  /\ snd r = Raise TypeError
  /\ nd_dtype <$> dataset (fst r) "labels" "10" = Some np_bool
  /\ (fun a => nd_data a [0; 0; 0]%nat 0%nat 0%nat)
       <$> dataset (fst r) "labels" "10" = Some 0.
Proof.
  intros m rois args r.
  repeat split; vm_compute; reflexivity.
Qed.

(** ** The label map *)

Section label_map.

Context {K V : Type} `{EqDecision K}.

Lemma dict_get_set_eq (k : K) (v : V) d : dict_get k (dict_set k v d) = Some v.
Proof.
  induction d as [|[k' v'] d IH]; cbn.
  - rewrite decide_True by reflexivity. reflexivity.
  - destruct (decide (k = k')) as [->|Hne]; cbn.
    + rewrite decide_True by reflexivity. reflexivity.
    + rewrite decide_False by exact Hne. exact IH.
Qed.

Lemma dict_get_set_ne (k k' : K) (v : V) d :
  k <> k' -> dict_get k' (dict_set k v d) = dict_get k' d.
Proof.
  intros Hne. induction d as [|[k0 v0] d IH]; cbn.
  - rewrite decide_False by (intros ->; contradiction). reflexivity.
  - destruct (decide (k = k0)) as [->|Hne0]; cbn.
    + rewrite !decide_False by (intros ->; contradiction). reflexivity.
    + destruct (decide (k' = k0)); [reflexivity | exact IH].
Qed.

End label_map.

(** A line that raises leaves every group read so far as it was. *)
Lemma parse_line_raise_keeps roi_map line lm lm' e name values :
  parse_line roi_map line lm = (lm', Raise e) ->
  dict_get name lm = Some values -> dict_get name lm' = Some values.
Proof.
  unfold parse_line.
  destruct (split_comma (strip line)) as [|sid [|name' [|roi [|? ?]]]];
    try (intros [= <- _]; auto).
  destruct (_ ≫= _) as [r|e']; intros [= <- _] Hget.
  destruct (decide (name' = name)) as [->|Hne].
  - rewrite dict_get_set_eq, Hget. reflexivity.
  - rewrite dict_get_set_ne by exact Hne. exact Hget.
Qed.

(** C8 (as the code has it). When the lines before a malformed line of the
    label map have been read, the reading stops at the malformed line with
    its exception, and the exception is caught: the groups read so far are
    kept as they were, the lines after it are not read, and the driver goes
    on to save every group of the dictionary as it stands. *)
Theorem C8_label_map_partial_groups_saved
    (roi_map : list (Z * list Mask)) (good rest : list string) (bad : string)
    (lm1 lm2 : list (string * list (list Mask))) e :
  for_each good (parse_line roi_map) [] = (lm1, Ok tt) ->
  parse_line roi_map bad lm1 = (lm2, Raise e) ->
  read_label_map roi_map (good ++ bad :: rest) = (lm2, Raise e)
  /\ (forall name values,
        dict_get name lm1 = Some values -> dict_get name lm2 = Some values)
  /\ (forall image_shape rois args dt root,
        collect_masks rois = roi_map -> roi_map <> [] ->
        style args <> "split" ->
        label_map args = Some (good ++ bad :: rest) ->
        select_dtype args = Ok dt ->
        image_masks_to_zarr image_shape rois args root
        = for_each lm2
            (fun '(name, values) =>
               save (mkSaver dt (label_path args) (style args) image_shape
                             (source_image_found args)) values name)
            root).
Proof.
  intros Hgood Hbad.
  assert (Hread : read_label_map roi_map (good ++ bad :: rest) = (lm2, Raise e)).
  { unfold read_label_map. eapply for_each_raise; eassumption. }
  split; [exact Hread|]. split.
  - intros name values. eapply parse_line_raise_keeps. exact Hbad.
  - intros image_shape rois args dt root Hmasks Hne Hstyle Hmap Hdt.
    unfold image_masks_to_zarr. unfold mbind at 1. unfold ST_bind, lift.
    rewrite Hdt, Hmasks.
    destruct roi_map as [|entry roi_map']; [contradiction|]. cbn [length Nat.ltb Nat.leb].
    rewrite bool_decide_eq_false_2 by exact Hstyle.
    rewrite Hmap, Hread. reflexivity.
Qed.

(** One ROI (id 10) with a one-pixel mask; the label map has a good line
    followed by a malformed one. *)
Lemma C8_label_map_witness :
  let m := mkMask None None None 0 0 1 1 [Byte.x80] in
  read_label_map [(10, [m])] ["1,cells,10"; "no commas here"; "1,cells,10"]
  = ([("cells", [[m]])], Raise ValueError).
Proof.
  intros m.
  apply (proj1 (C8_label_map_partial_groups_saved [(10, [m])]
                  ["1,cells,10"] ["1,cells,10"] "no commas here"
                  [("cells", [[m]])] [("cells", [[m]])] ValueError
                  ltac:(vm_compute; reflexivity)
                  ltac:(vm_compute; reflexivity))).
Defined.

(** C8, counterexample. The label map of the witness, given to the driver:
    the second line is malformed, yet the group [cells] read from the first
    line is kept, its array is written (the pixel of ROI 10 holds 1) and
    registered, and the driver returns normally. *)
Lemma C8_counterexample :
  let m := mkMask None None None 0 0 1 1 [Byte.x80] in
  let rois := [mkROI 10 [MaskI m]] in
  let lines := ["1,cells,10"; "no commas here"; "1,cells,10"] in
  let args := mkArgs "8" "labeled" "labels" "0" (Some lines) true in
  let r := image_masks_to_zarr (1, 1, 1, 1, 1)%nat rois args ∅ in
  snd (read_label_map (collect_masks rois) lines) = Raise ValueError
  /\ snd r = Ok tt
  /\ (fun a => nd_data a [0; 0; 0]%nat 0%nat 0%nat)
       <$> dataset (fst r) "labels" "cells" = Some 1
  /\ (fst r !! "labels") ≫= g_labels = Some ["cells"].
Proof.
  intros m rois lines args r. repeat split; vm_compute; reflexivity.
Qed.

(** ** What the compositors keep *)

Section preserved.

Context {S : Type} (P : S -> Prop).

(** A property of the state that every iteration keeps is kept by the
    loop, whether it completes or raises. *)
Lemma for_each_preserves {B} (xs : list B) (body : B -> ST S unit) s s' r :
  (forall x t t' r', body x t = (t', r') -> P t -> P t') ->
  for_each xs body s = (s', r) -> P s -> P s'.
Proof.
  intros Hbody. revert s. induction xs as [|x xs IH]; intros s; cbn [for_each].
  - intros [= <- <-]. auto.
  - unfold mbind, ST_bind. destruct (body x s) as [t [[]|e]] eqn:Hx.
    + intros Hrest Hs. eapply IH; [exact Hrest|]. eapply Hbody; eassumption.
    + intros [= <- <-] Hs. eapply Hbody; eassumption.
Qed.

End preserved.





(** The label compositor never changes a boolean array. *)
Lemma masks_to_labels_bool_unchanged dt (masks : list (list Mask)) mask_shape
    ign chk (labels labels' : ndarray) r :
  nd_dtype labels = np_bool ->
  masks_to_labels dt masks mask_shape ign chk labels = (labels', r) ->
  labels' = labels.
Proof.
  intros Hb. unfold masks_to_labels.
  destruct mask_shape as [[[[st sc] sz] sy] sx].
  destruct (nd_shape labels) as [|[|t] rest] eqn:Hs.
  - intros [= <- <-]. reflexivity.
  - destruct (match assert_shape _ _ _ _ with Ok _ => _ | Raise e => _ end)
      as [? [[]|?]]; intros [= <- <-]; reflexivity.
  - destruct (assert_shape _ _ _ _); [|intros [= <- <-]; reflexivity].
    rewrite (labels_loops_steps _ _ _ _ _ sy sx). intros Hrun.
    apply (for_each_preserves (fun a => a = labels)) in Hrun;
      [exact Hrun| |reflexivity].
    clear Hrun. intros s0 u u' r' Hstep Hu. subst u. rename s0 into s.
    destruct s as [m|c m pre]; cbn [run_step] in Hstep;
      unfold mbind, ST_bind, lift, mret, ST_ret in Hstep;
      destruct (_mask_to_binim_yx dt m)
        as [[binim [[[[[[tt_ c0] z] y] x] h] w]]|e];
      try (injection Hstep as <- _; reflexivity).
    destruct (write_plane_bool chk c binim y x h w pre labels Hb) as [e He].
    rewrite He in Hstep. injection Hstep as <- _. reflexivity.
Qed.

(** * Further properties of the code *)

(** ** Dictionaries in insertion order *)

Section dict.

Context {K V : Type} `{EqDecision K}.

Lemma dict_set_fresh (k : K) (v : V) (d : list (K * V)) :
  k ∉ d.*1 -> dict_set k v d = d ++ [(k, v)].
Proof.
  induction d as [|[k' v'] d IH]; cbn; [reflexivity|].
  intros Hk. apply not_elem_of_cons in Hk as [Hne Hk].
  rewrite decide_False by exact Hne. rewrite IH by exact Hk. reflexivity.
Qed.

Lemma dict_set_keys (k : K) (v : V) (d : list (K * V)) :
  (dict_set k v d).*1 = if decide (k ∈ d.*1) then d.*1 else d.*1 ++ [k].
Proof.
  induction d as [|[k' v'] d IH]; cbn.
  - rewrite decide_False by apply not_elem_of_nil. reflexivity.
  - destruct (decide (k = k')) as [->|Hne]; cbn.
    + rewrite decide_True by apply list_elem_of_here. reflexivity.
    + rewrite IH. destruct (decide (k ∈ d.*1)) as [Hin|Hin].
      * rewrite decide_True by (apply list_elem_of_further, Hin). reflexivity.
      * rewrite decide_False; [reflexivity|].
        intros [?|?]%elem_of_cons; contradiction.
Qed.

Lemma dict_set_NoDup (k : K) (v : V) (d : list (K * V)) :
  NoDup d.*1 -> NoDup (dict_set k v d).*1.
Proof.
  intros Hnd. rewrite dict_set_keys. case_decide as Hk; [exact Hnd|].
  apply NoDup_app. split; [exact Hnd|]. split; [|apply NoDup_singleton].
  intros x Hx ->%list_elem_of_singleton. contradiction.
Qed.


Lemma dict_get_elem_of (k : K) (v : V) (d : list (K * V)) :
  dict_get k d = Some v -> (k, v) ∈ d.
Proof.
  induction d as [|[k' v'] d IH]; cbn; [discriminate|].
  destruct (decide (k = k')) as [->|Hne].
  - intros [= ->]. apply list_elem_of_here.
  - intros Hget. apply list_elem_of_further, IH, Hget.
Qed.

Lemma elem_of_dict_get (k : K) (v : V) (d : list (K * V)) :
  NoDup d.*1 -> (k, v) ∈ d -> dict_get k d = Some v.
Proof.
  induction d as [|[k' v'] d IH]; cbn.
  - intros _ Hin. apply elem_of_nil in Hin. destruct Hin.
  - intros [Hk' Hnd]%NoDup_cons [[= -> ->]|Hin]%elem_of_cons.
    + rewrite decide_True by reflexivity. reflexivity.
    + rewrite decide_False; [apply IH; assumption|].
      intros ->. apply Hk'. apply list_elem_of_fmap. exists (k', v). done.
Qed.

End dict.

(** ** The dictionary of masks *)

Lemma collect_masks_snoc (rois : list ROI) (roi : ROI) :
  collect_masks (rois ++ [roi])
  = match roi_entry roi with
    | Some (id, mask_shapes) => dict_set id mask_shapes (collect_masks rois)
    | None => collect_masks rois
    end.
Proof.
  unfold collect_masks at 1. rewrite foldl_app. cbn [foldl].
  unfold roi_entry, roi_masks. fold (collect_masks rois).
  destruct (0 <? _)%nat; reflexivity.
Qed.

Lemma collect_masks_keys (rois : list ROI) :
  NoDup (collect_masks rois).*1.
Proof.
  induction rois as [|roi rois IH] using rev_ind; [constructor|].
  rewrite collect_masks_snoc. destruct (roi_entry roi) as [[id ms]|];
    [apply dict_set_NoDup|]; exact IH.
Qed.

Lemma roi_entry_Some (roi : ROI) id ms :
  roi_entry roi = Some (id, ms)
  <-> roi_id roi = id /\ roi_masks roi = ms /\ ms <> [].
Proof.
  unfold roi_entry. destruct (roi_masks roi) as [|m l] eqn:E; cbn.
  - split; [discriminate|]. intros (_ & <- & H). contradiction.
  - split; [intros [= <- <-]; done|]. intros (<- & <- & _). reflexivity.
Qed.

(** X1. The dictionary [masks] built from the ROIs of the image has one
    entry per ROI id, every entry holds at least one mask and is the list of
    mask shapes of a ROI with that id, and every ROI with a mask shape has
    its id in the dictionary. When the ROI ids are distinct, the dictionary
    is exactly the ROIs that have a mask shape, in their order, each with
    its mask shapes (the other shapes are dropped). *)
Theorem X1_collect_masks (rois : list ROI) :
  NoDup (collect_masks rois).*1
  /\ (forall id ms, (id, ms) ∈ collect_masks rois ->
        ms <> [] /\ exists roi, roi ∈ rois /\ roi_id roi = id
                              /\ roi_masks roi = ms)
  /\ (forall roi, roi ∈ rois -> roi_masks roi <> [] ->
        exists ms, dict_get (roi_id roi) (collect_masks rois) = Some ms)
  /\ (NoDup (roi_id <$> rois) -> collect_masks rois = omap roi_entry rois).
Proof.
  split; [apply collect_masks_keys|]. split; [|split].
  - induction rois as [|roi rois IH] using rev_ind.
    + intros id ms Hin. apply elem_of_nil in Hin. destruct Hin.
    + intros id ms. rewrite collect_masks_snoc.
      destruct (roi_entry roi) as [[id' ms']|] eqn:Hentry.
      * intros Hin.
        assert (Hcases : (id, ms) = (id', ms') \/ (id, ms) ∈ collect_masks rois).
        { clear -Hin. induction (collect_masks rois) as [|[k v] d IHd];
            cbn in Hin.
          - apply list_elem_of_singleton in Hin. auto.
          - destruct (decide (id' = k)) as [->|Hne].
            + apply elem_of_cons in Hin as [Hin|Hin]; [auto|].
              right. apply list_elem_of_further, Hin.
            + apply elem_of_cons in Hin as [Hin|Hin].
              * right. rewrite Hin. apply list_elem_of_here.
              * destruct (IHd Hin) as [?|?]; [auto|].
                right. apply list_elem_of_further. assumption. }
        destruct Hcases as [[= -> ->]|Hold].
        -- apply roi_entry_Some in Hentry as (Hid & Hms & Hne).
           split; [exact Hne|]. exists roi.
           split; [apply elem_of_app; right; apply list_elem_of_here|]. done.
        -- destruct (IH id ms Hold) as (Hne & roi0 & Hroi0 & Hrest).
           split; [exact Hne|]. exists roi0.
           split; [apply elem_of_app; left; exact Hroi0 | exact Hrest].
      * intros Hin. destruct (IH id ms Hin) as (Hne & roi0 & Hroi0 & Hrest).
        split; [exact Hne|]. exists roi0.
        split; [apply elem_of_app; left; exact Hroi0 | exact Hrest].
  - induction rois as [|roi rois IH] using rev_ind.
    + intros roi Hin. apply elem_of_nil in Hin. destruct Hin.
    + intros roi0 Hin Hne. rewrite collect_masks_snoc.
      assert (Hkeep : forall id ms,
                 is_Some (dict_get (roi_id roi0) (collect_masks rois)) ->
                 is_Some (dict_get (roi_id roi0)
                            (dict_set id ms (collect_masks rois)))).
      { intros id ms [v Hv]. destruct (decide (id = roi_id roi0)) as [->|Hid].
        - rewrite dict_get_set_eq. eauto.
        - rewrite dict_get_set_ne by exact Hid. eauto. }
      apply elem_of_app in Hin as [Hin | ->%list_elem_of_singleton].
      * destruct (IH roi0 Hin Hne) as [ms0 Hms0].
        destruct (roi_entry roi) as [[id ms]|]; [|eauto].
        destruct (Hkeep id ms (ex_intro _ ms0 Hms0)) as [v Hv]. eauto.
      * rewrite (proj2 (roi_entry_Some roi (roi_id roi) (roi_masks roi)))
          by done.
        rewrite dict_get_set_eq. eauto.
  - induction rois as [|roi rois IH] using rev_ind; [reflexivity|].
    intros Hnd. rewrite fmap_app in Hnd. apply NoDup_app in Hnd as (Hnd & Hfresh & _).
    rewrite collect_masks_snoc, omap_app, IH by exact Hnd. cbn [omap list_omap].
    destruct (roi_entry roi) as [[id ms]|] eqn:Hentry; [|rewrite app_nil_r; reflexivity].
    apply dict_set_fresh. intros Hin.
    apply list_elem_of_fmap in Hin as ([id0 ms0] & Hid & Hin). cbn in Hid. subst id0.
    apply list_elem_of_omap in Hin as (roi0 & Hroi0 & Hentry0).
    apply roi_entry_Some in Hentry as (Hid & _), Hentry0 as (Hid0 & _).
    apply (Hfresh id).
    + apply list_elem_of_fmap. exists roi0. done.
    + rewrite <- Hid. apply list_elem_of_here.
Qed.

Lemma X1_collect_masks_witness :
  let m := mkMask None None None 0 0 1 1 [Byte.x80] in
  collect_masks [mkROI 7 [OtherShape; MaskI m]; mkROI 3 [OtherShape];
                 mkROI 5 [MaskI m; MaskI m]]
  = [(7, [m]); (5, [m; m])].
Proof.
  intros m.
  rewrite (proj2 (proj2 (proj2 (X1_collect_masks _)))).
  - reflexivity.
  - vm_compute. repeat constructor; intros H;
      repeat (apply elem_of_cons in H as [H|H]; [discriminate H|]);
      apply elem_of_nil in H; exact H.
Defined.

Lemma collect_masks_nil (rois : list ROI) :
  (forall roi, roi ∈ rois -> roi_masks roi = []) -> collect_masks rois = [].
Proof.
  induction rois as [|roi rois IH] using rev_ind; [reflexivity|].
  intros Hall. rewrite collect_masks_snoc. unfold roi_entry.
  rewrite (Hall roi) by (apply elem_of_app; right; apply list_elem_of_here).
  cbn. apply IH. intros roi0 Hin. apply Hall, elem_of_app. left. exact Hin.
Qed.

(** ** The driver before any save *)



(** X3. When no ROI of the image has a mask shape and the bit depth is
    supported, the driver returns normally and leaves the store as it is: no
    group is created and [save] is never called. *)
Theorem X3_no_masks_no_write image (rois : list ROI) (args : Args)
    (root : store) dt :
  (forall roi, roi ∈ rois -> roi_masks roi = []) ->
  select_dtype args = Ok dt ->
  image_masks_to_zarr image rois args root = (root, Ok tt).
Proof.
  intros Hnone Hdt. unfold image_masks_to_zarr.
  unfold mbind at 1. unfold ST_bind, lift. rewrite Hdt.
  rewrite (collect_masks_nil rois Hnone). reflexivity.
Qed.

Lemma X3_no_masks_witness :
  image_masks_to_zarr (2, 1, 1, 4, 4)%nat
    [mkROI 1 [OtherShape]; mkROI 2 []]
    (mkArgs "16" "split" "labels" "0" None true) ∅
  = (∅, Ok tt).
Proof.
  apply (X3_no_masks_no_write _ _ _ _ np_int16); [|reflexivity].
  intros roi Hin.
  repeat (apply elem_of_cons in Hin as [->|Hin]; [reflexivity|]).
  apply elem_of_nil in Hin. destruct Hin.
Defined.

(** ** What [save] writes and what it leaves *)

Section save_store.

Variable self : MaskSaver.
Variable name : string.

Lemma dataset_put_array a (root : store) p n :
  dataset (put_array self name a root) p n
  = if decide (p = self_path self /\ n = name)
    then (_ ← root !! p; Some a) else dataset root p n.
Proof.
  unfold dataset, put_array.
  destruct (decide (p = self_path self)) as [->|Hp].
  - rewrite lookup_alter_eq. destruct (root !! self_path self) as [g|]; cbn.
    + destruct (decide (n = name)) as [->|Hn].
      * rewrite decide_True by done. apply lookup_insert_eq.
      * rewrite decide_False by tauto. apply lookup_insert_ne. congruence.
    + case_decide; reflexivity.
  - rewrite lookup_alter_ne by congruence. rewrite decide_False by tauto.
    reflexivity.
Qed.

Lemma dataset_register (root : store) p n path :
  dataset (alter (register_label name) path root) p n = dataset root p n.
Proof.
  unfold dataset. destruct (decide (p = path)) as [->|Hp].
  - rewrite lookup_alter_eq. destruct (root !! path) as [g|]; [|reflexivity].
    cbn. unfold register_label.
    destruct (g_labels g); [case_decide|]; reflexivity.
  - rewrite lookup_alter_ne by congruence. reflexivity.
Qed.

Lemma dataset_create_group (root : store) p n path :
  dataset (match root !! path with
           | Some _ => root
           | None => <[path := mkGroup ∅ None]> root
           end) p n
  = dataset root p n.
Proof.
  destruct (root !! path) as [g|] eqn:Hg; [reflexivity|].
  unfold dataset. destruct (decide (p = path)) as [->|Hp].
  - rewrite lookup_insert_eq, Hg. reflexivity.
  - rewrite lookup_insert_ne by congruence. reflexivity.
Qed.

Lemma lookup_create_group (root : store) path :
  exists g, (match root !! path with
             | Some _ => root
             | None => <[path := mkGroup ∅ None]> root
             end) !! path = Some g
            /\ g_labels g = registry root path.
Proof.
  unfold registry. destruct (root !! path) as [g|] eqn:Hg.
  - exists g. rewrite Hg. done.
  - exists (mkGroup ∅ None). rewrite lookup_insert_eq. done.
Qed.


End save_store.


















(** ** The guard keeps labels apart *)

Lemma for_each_preserves_elem {S B} (P : S -> Prop) (xs : list B)
    (body : B -> ST S unit) s s' r :
  (forall x t t' r', x ∈ xs -> body x t = (t', r') -> P t -> P t') ->
  for_each xs body s = (s', r) -> P s -> P s'.
Proof.
  revert s. induction xs as [|x xs IH]; intros s Hbody; cbn [for_each].
  - intros [= <- <-]. auto.
  - unfold mbind, ST_bind. destruct (body x s) as [t [[]|e]] eqn:Hx.
    + intros Hrest Hs. eapply IH; [|exact Hrest|].
      * intros y u u' r' Hy. apply Hbody. apply list_elem_of_further, Hy.
      * eapply Hbody; [apply list_elem_of_here | exact Hx | exact Hs].
    + intros [= <- <-] Hs.
      eapply Hbody; [apply list_elem_of_here | exact Hx | exact Hs].
Qed.

Lemma existsb_seq_false (f : nat -> bool) n (i : nat) :
  existsb f (seq 0 n) = false -> (i < n)%nat -> f i = false.
Proof.
  intros Hex Hi. destruct (f i) eqn:Hf; [|reflexivity].
  rewrite <- Hex. symmetry. apply existsb_seq. eauto.
Qed.

Lemma rows_of_Forall (P : Z -> Prop) h w (a : list Z) :
  Forall P a -> Forall (Forall P) (rows_of h w a).
Proof.
  revert a. induction h as [|h IH]; intros a Ha; cbn; constructor.
  - apply Forall_take, Ha.
  - apply IH, Forall_drop, Ha.
Qed.

(** Every entry of a decoded binary image is 0 or 1. *)
Lemma decode_entries_01 dt (m : Mask) binim st (i j : nat) :
  _mask_to_binim_yx dt m = Ok (binim, st) ->
  at2 binim i j = 0 \/ at2 binim i j = 1.
Proof.
  unfold _mask_to_binim_yx, reshape. case_decide; [|discriminate].
  cbn. intros [= <- _]. unfold at2.
  set (bits := map (astype dt) (unpackbits (fromstring (getBytes m)))).
  assert (Hbits : Forall (fun v => v = 0 \/ v = 1) bits).
  { unfold bits, unpackbits. apply Forall_forall. intros v Hv.
    apply list_elem_of_In, in_map_iff in Hv as (b & <- & Hb).
    apply in_flat_map in Hb as (u & _ & Hb). unfold byte_bits in Hb.
    apply in_map_iff in Hb as (k & <- & _).
    rewrite astype_bit. destruct (Z.testbit _ _); auto. }
  pose proof (rows_of_Forall _ (mask_height m) (mask_width m) _
                (Forall_take _ (mask_width m * mask_height m)%nat _ Hbits))
    as Hrows.
  destruct (rows_of _ _ _ !! i) as [row|] eqn:Hrow; cbn; [|auto].
  destruct (row !! j) as [v|] eqn:Hv; cbn; [|auto].
  rewrite Forall_forall in Hrows.
  specialize (Hrows row ltac:(apply list_elem_of_lookup; eauto)).
  rewrite Forall_forall in Hrows. apply Hrows.
  apply list_elem_of_lookup. eauto.
Qed.

(** One guarded write keeps every entry at the background or at one
    label. *)
Lemma write_plane_guarded n count binim y x h w pre (L L' : ndarray) r :
  nd_dtype L <> np_bool ->
  (count < n)%nat ->
  Z.of_nat n <= dtype_max (nd_dtype L) ->
  (forall i j, at2 binim i j = 0 \/ at2 binim i j = 1) ->
  (forall p y' x', single_label n (nd_data L p y' x')) ->
  write_plane true count binim y x h w pre L = (L', r) ->
  nd_dtype L' = nd_dtype L
  /\ forall p y' x', single_label n (nd_data L' p y' x').
Proof.
  intros Hdt Hcount Hn Hbin HL. unfold write_plane.
  destruct (select L pre y x h w) as [rg|e]; cbn;
    [|intros [= <- <-]; done].
  unfold any_overlap, iadd_region.
  destruct (broadcast_dim (r_h rg) h) as [bh|]; cbn;
    [|intros [= <- <-]; done].
  destruct (broadcast_dim (r_w rg) w) as [bw|]; cbn;
    [|intros [= <- <-]; done].
  destruct (existsb _ (seq 0 bh)) eqn:Hex; cbn; [intros [= <- <-]; done|].
  rewrite bool_decide_eq_false_2 by exact Hdt.
  destruct (decide (bh = r_h rg /\ bw = r_w rg)) as [[-> ->]|];
    [|intros [= <- <-]; done].
  intros [= <- <-]. split; [reflexivity|].
  intros p y' x'. rewrite update_region_data.
  destruct (decide (p = pre)) as [->|]; [|apply HL].
  unfold added. destruct (in_region rg y' x') eqn:Hin; [|apply HL].
  unfold in_region in Hin.
  rewrite !andb_true_iff, !Nat.leb_le, !Nat.ltb_lt in Hin.
  pose proof (existsb_seq_false _ _ (y' - r_y rg) Hex ltac:(lia)) as Hrow.
  pose proof (existsb_seq_false _ _ (x' - r_x rg) Hrow ltac:(lia)) as Hpix.
  rewrite !bidx_lt in Hpix by lia.
  replace (r_y rg + (y' - r_y rg))%nat with y' in Hpix by lia.
  replace (r_x rg + (x' - r_x rg))%nat with x' in Hpix by lia.
  assert (Hrange : 0 <= nd_data L pre y' x' <= dtype_max (nd_dtype L)).
  { destruct (HL pre y' x') as [->|(k & Hk & ->)]; lia. }
  destruct (Hbin (bidx h (y' - r_y rg)) (bidx w (x' - r_x rg))) as [Hb|Hb];
    rewrite Hb in *.
  - rewrite Z.mul_0_l, Z.add_0_r, astype_id by assumption. apply HL.
  - rewrite andb_true_r in Hpix. unfold truthy in Hpix.
    apply negb_false_iff, Z.eqb_eq in Hpix. rewrite Hpix.
    rewrite Z.add_0_l, Z.mul_1_l, astype_id by (try assumption; lia).
    right. exists count. done.
Qed.

(** X9. With the overlap guard on, [masks_to_labels] never adds two labels
    up. Take an array of an integer dtype that can hold the number [N] of
    ROIs and whose entries are each the background 0 or one label of 1..N
    (a fresh array is of this kind). Then, whatever the masks are
    (overlapping, out of the image, too short) and whether the call returns
    or raises, every entry of the array it leaves is again 0 or one label
    of 1..N. *)
Theorem X9_guard_keeps_single_labels dt (masks : list (list Mask)) mask_shape
    ign (L L' : ndarray) r :
  nd_dtype L <> np_bool ->
  Z.of_nat (length masks) <= dtype_max (nd_dtype L) ->
  (forall p y x, single_label (length masks) (nd_data L p y x)) ->
  masks_to_labels dt masks mask_shape ign true L = (L', r) ->
  forall p y x, single_label (length masks) (nd_data L' p y x).
Proof.
  intros Hdt Hn HL. unfold masks_to_labels.
  destruct mask_shape as [[[[st sc] sz] sy] sx].
  destruct (nd_shape L) as [|[|t] rest] eqn:Hs.
  - intros [= <- <-]. exact HL.
  - destruct (match assert_shape _ _ _ _ with Ok _ => _ | Raise e => _ end)
      as [? [[]|?]]; intros [= <- <-]; exact HL.
  - destruct (assert_shape _ _ _ _); [|intros [= <- <-]; exact HL].
    set (P := fun t : ndarray =>
                nd_dtype t = nd_dtype L
                /\ forall p y x, single_label (length masks) (nd_data t p y x)).
    intros Hrun. unfold labels_loops in Hrun.
    apply (for_each_preserves_elem P) in Hrun; [apply Hrun| |done].
    clear Hrun. intros [count shapes] t1 t1' r1 Hin.
    apply elem_of_enumerate, lookup_lt_Some in Hin.
    apply (for_each_preserves P). intros mask t2 t2' r2.
    unfold mbind, ST_bind, lift.
    destruct (_mask_to_binim_yx dt mask)
      as [[binim [[[[[[tt_ c] z] y] x] h] w]]|e] eqn:Hdec;
      [|intros [= <- <-]; done].
    apply (for_each_preserves P). intros i_t t3 t3' r3.
    apply (for_each_preserves P). intros i_c t4 t4' r4.
    apply (for_each_preserves P). intros i_z t5 t5' r5 Hw [Hd5 H5].
    eapply write_plane_guarded in Hw; try eassumption.
    + destruct Hw as [Hd Hl]. split; [congruence | exact Hl].
    + congruence.
    + rewrite Hd5. exact Hn.
    + intros i j. eapply decode_entries_01. exact Hdec.
Qed.

(** Two ROIs whose masks overlap at (1,1): the call raises, and the entry
    at (1,1) of the array it leaves is the label 1 of the first ROI, not the
    sum 3 of the two labels. *)
Lemma X9_guard_witness :
  let m1 := mkMask None None None 0 0 2 2 [Byte.xf0] in
  let m2 := mkMask None None None 1 1 2 2 [Byte.xf0] in
  let r := masks_to_labels np_int8 [[m1]; [m2]] (1, 1, 1, 3, 3)%nat
             {[ T; C; Z_ ]} true (zeros [1; 1; 1; 3; 3]%nat np_int8) in
  single_label 2 (nd_data (fst r) [0; 0; 0]%nat 1 1)
  /\ nd_data (fst r) [0; 0; 0]%nat 1 1 = 1.
Proof.
  intros m1 m2 r. split; [|vm_compute; reflexivity].
  apply (X9_guard_keeps_single_labels np_int8 [[m1]; [m2]]
           (1, 1, 1, 3, 3)%nat {[ T; C; Z_ ]}
           (zeros [1; 1; 1; 3; 3]%nat np_int8) (fst r) (snd r)).
  - discriminate.
  - vm_compute. discriminate.
  - intros p' y' x'. left. reflexivity.
  - apply surjective_pairing.
Defined.

(** ** The stack compositor counts coverage *)

Section stack.

Lemma count_if_app {A} (f : A -> bool) (l k : list A) :
  count_if f (l ++ k) = (count_if f l + count_if f k)%nat.
Proof. induction l as [|a l IH]; cbn; [reflexivity|]. rewrite IH. lia. Qed.

Lemma count_if_none {A} (f : A -> bool) (l : list A) :
  (forall a, a ∈ l -> f a = false) -> count_if f l = 0%nat.
Proof.
  induction l as [|a l IH]; intros Hl; cbn; [reflexivity|].
  rewrite (Hl a) by apply list_elem_of_here.
  rewrite IH; [reflexivity|]. intros b Hb. apply Hl, list_elem_of_further, Hb.
Qed.

Lemma count_if_eq_NoDup {A} `{EqDecision A} (x : A) (l : list A) :
  NoDup l ->
  count_if (fun a => bool_decide (x = a)) l = if decide (x ∈ l) then 1%nat else 0%nat.
Proof.
  induction 1 as [|a l Hnotin Hnd IH]; cbn.
  - rewrite decide_False by apply not_elem_of_nil. reflexivity.
  - rewrite IH. destruct (decide (x = a)) as [->|Hne].
    + rewrite bool_decide_eq_true_2 by reflexivity.
      rewrite decide_False by exact Hnotin.
      rewrite decide_True by apply list_elem_of_here. reflexivity.
    + rewrite bool_decide_eq_false_2 by exact Hne.
      destruct (decide (x ∈ l)) as [Hin|Hin].
      * rewrite decide_True by (apply list_elem_of_further, Hin). reflexivity.
      * rewrite decide_False; [reflexivity|].
        intros [?|?]%elem_of_cons; contradiction.
Qed.

(** Adding 0 or 1 to a stored count, then storing: the same as storing the
    sum. *)
Lemma astype_add dt (n : nat) b :
  b = 0 \/ b = 1 ->
  astype dt (astype dt (Z.of_nat n) + b) = astype dt (Z.of_nat n + b).
Proof.
  intros Hb. unfold astype. destruct (int_bits dt) as [w|].
  - unfold wrap.
    replace ((Z.of_nat n + 2 ^ (w - 1)) mod 2 ^ w - 2 ^ (w - 1) + b
             + 2 ^ (w - 1))
      with ((Z.of_nat n + 2 ^ (w - 1)) mod 2 ^ w + b) by lia.
    rewrite Zplus_mod_idemp_l. do 2 f_equal. lia.
  - destruct (Z.eqb_spec (Z.of_nat n) 0) as [E|E];
      destruct Hb as [-> | ->];
      repeat match goal with
             | |- context [?a =? ?b] => destruct (Z.eqb_spec a b)
             end; try reflexivity; lia.
Qed.

Lemma stack_mask_steps_run dt ign (mask_shape : shape5) count (mask : Mask)
    (target : ndarray) :
  ('(binim_yx, (t, c, z, y, x, h, w)) ←
      lift (_mask_to_binim_yx dt mask);
   for_each (_get_indices ign T t (axis mask_shape 0)) (fun i_t =>
     for_each (_get_indices ign C c (axis mask_shape 1)) (fun i_c =>
       for_each (_get_indices ign Z_ z (axis mask_shape 2)) (fun i_z =>
         fun target =>
           match
             r ← select target [count; i_t; i_c; i_z] y x h w;
             iadd_region target [count; i_t; i_c; i_z] r binim_yx h w 1
                         (bool_decide (dt <> np_bool))
           with
           | Ok target' => (target', Ok tt)
           | Raise e => (target, Raise e)
           end)))) target
  = for_each (mask_steps ign mask_shape count mask) (run_stack_step dt) target.
Proof.
  unfold mask_steps. cbn [for_each run_stack_step].
  unfold mbind, ST_bind, lift, mret, ST_ret.
  destruct (_mask_to_binim_yx dt mask) as [[binim st]|e] eqn:Hdec;
    [|reflexivity].
  pose proof (decode_settings _ _ _ _ Hdec) as ->.
  rewrite for_each_fmap.
  etransitivity;
    [exact (planes_loops ign mask_shape mask
              (fun (pre : list nat) (target : ndarray) =>
                 match
                   mbind (M := res)
                     (fun r =>
                        iadd_region target (count :: pre) r binim
                          (mask_height mask) (mask_width mask) 1
                          (bool_decide (dt <> np_bool)))
                     (select target (count :: pre) (mask_y mask) (mask_x mask)
                             (mask_height mask) (mask_width mask))
                 with
                 | Ok target' => (target', Ok tt)
                 | Raise e => (target, Raise e)
                 end) target)|].
  apply for_each_ext. intros pre s. cbn [run_stack_step].
  unfold mbind, ST_bind, lift. rewrite Hdec. reflexivity.
Qed.

Lemma stack_loops_steps dt (masks : list (list Mask)) st sc sz sy sx ign
    (target : ndarray) :
  stack_loops dt masks st sc sz ign target
  = for_each (steps_of ign (st, sc, sz, sy, sx) masks) (run_stack_step dt)
             target.
Proof.
  unfold stack_loops, steps_of. rewrite <- for_each_nested.
  apply for_each_ext. intros [count shapes] s1.
  rewrite <- for_each_nested. apply for_each_ext. intros mask s2.
  apply (stack_mask_steps_run dt ign (st, sc, sz, sy, sx)).
Qed.

Lemma stack_masks_steps dt (masks : list (list Mask)) mask_shape ign chk
    (target : ndarray) :
  nd_shape target = length masks :: shape_list mask_shape ->
  (0 < length masks)%nat ->
  (forall d, d ∈ ign -> axis mask_shape (DIMENSION_ORDER d) = 1%nat) ->
  stack_masks dt masks mask_shape ign chk target
  = for_each (steps_of ign mask_shape masks) (run_stack_step dt) target.
Proof.
  intros Hshape Hpos Hign.
  destruct mask_shape as [[[[st sc] sz] sy] sx].
  unfold stack_masks. rewrite Hshape.
  destruct (length masks) as [|g] eqn:Hg; [lia|].
  rewrite assert_shape_ok.
  - apply stack_loops_steps.
  - intros d Hd. specialize (Hign d Hd). unfold axis in Hign.
    rewrite Nat.add_1_r. cbn [lookup list_lookup].
    destruct (shape_list (st, sc, sz, sy, sx) !! DIMENSION_ORDER d) as [n|] eqn:E;
      cbn in Hign; [|discriminate].
    subst n. reflexivity.
Qed.

End stack.

Section stack_count.

Variable ign : gset dim.
Variable mask_shape : shape5.
Variable dt : dtype.
Hypothesis Hign :
  forall d, d ∈ ign -> axis mask_shape (DIMENSION_ORDER d) = 1%nat.

Lemma select_in_bounds6 (a : ndarray) G st sc sz sy sx g i_t i_c i_z y x h w :
  nd_shape a = [G; st; sc; sz; sy; sx] ->
  (g < G)%nat -> (i_t < st)%nat -> (i_c < sc)%nat -> (i_z < sz)%nat ->
  (y + h <= sy)%nat -> (x + w <= sx)%nat ->
  select a [g; i_t; i_c; i_z] y x h w = Ok (mkRegion y x h w).
Proof.
  intros Hs Hg Ht Hc Hz Hy Hx. unfold select. rewrite Hs.
  rewrite decide_True by reflexivity.
  cbn [zip zip_with forallb length lookup list_lookup default].
  apply Nat.ltb_lt in Hg, Ht, Hc, Hz. rewrite Hg, Ht, Hc, Hz. cbn [andb].
  unfold clip_start, clip_len. cbn. f_equal. f_equal; lia.
Qed.

Lemma select_stack_well_formed (L : ndarray) G g (m : Mask) pre :
  nd_shape L = G :: shape_list mask_shape ->
  (g < G)%nat ->
  well_formed ign mask_shape m ->
  pre ∈ mask_planes ign mask_shape m ->
  select L (g :: pre) (mask_y m) (mask_x m) (mask_height m) (mask_width m)
  = Ok (mkRegion (mask_y m) (mask_x m) (mask_height m) (mask_width m)).
Proof using Hign.
  intros Hshape Hg Hwf Hpre.
  destruct (mask_planes_in_range ign mask_shape m pre Hign Hwf Hpre)
    as (i_t & i_c & i_z & -> & Ht & Hc & Hz).
  destruct Hwf as (_ & Hy & Hx & _).
  destruct mask_shape as [[[[st sc] sz] sy] sx].
  apply (select_in_bounds6 L G st sc sz sy sx); assumption.
Qed.

Lemma hits_snoc (P : list step) s g pre y x :
  hits (P ++ [s]) g pre y x
  = (hits P g pre y x
     + (if bool_decide (step_count s = g) && step_covers s pre y x
        then 1 else 0))%nat.
Proof. unfold hits. rewrite count_if_app. cbn [count_if]. lia. Qed.

(** One step of the stack compositor on an array that counts the steps
    before it. *)
Lemma run_stack_step_counted (P : list step) (L : ndarray) G (s : step) :
  nd_shape L = G :: shape_list mask_shape -> nd_dtype L = dt ->
  counted_by dt P L ->
  stack_step_ok ign mask_shape G s ->
  exists L1,
    run_stack_step dt s L = (L1, Ok tt)
    /\ nd_shape L1 = G :: shape_list mask_shape /\ nd_dtype L1 = dt
    /\ counted_by dt (P ++ [s]) L1.
Proof using Hign.
  intros Hshape Hdtype Hcnt Hok.
  destruct s as [m|c m pre0]; cbn [run_stack_step].
  - destruct Hok as (Hbuf & _).
    destruct (decode_ok dt m Hbuf) as (binim & Hdec & _).
    exists L. unfold mbind, ST_bind, lift, mret, ST_ret. rewrite Hdec.
    repeat split; try assumption.
    intros g pre y x. rewrite hits_snoc. cbn [step_covers].
    rewrite andb_false_r, Nat.add_0_r. apply Hcnt.
  - destruct Hok as (Hwf & Hpre & Hc).
    destruct (decode_ok dt m (proj1 Hwf)) as (binim & Hdec & _).
    unfold mbind at 1, ST_bind, lift. rewrite Hdec.
    rewrite (select_stack_well_formed L G c m pre0 Hshape Hc Hwf Hpre).
    set (r := mkRegion (mask_y m) (mask_x m) (mask_height m) (mask_width m)).
    cbn [mbind res_bind]. unfold mbind, res_bind. unfold iadd_region.
    replace (bool_decide (dt <> np_bool) && bool_decide (nd_dtype L = np_bool))
      with false by (rewrite Hdtype; destruct dt; reflexivity).
    cbn [r r_h r_w]. rewrite !broadcast_dim_same.
    rewrite decide_True by done.
    eexists. split; [reflexivity|]. split; [exact Hshape|].
    split; [exact Hdtype|].
    intros g pre y x. rewrite update_region_data, hits_snoc.
    cbn [step_count step_covers].
    destruct (decide (g :: pre = c :: pre0)) as [E|Hne].
    + injection E as -> ->.
      rewrite !bool_decide_eq_true_2 by reflexivity. cbn [andb].
      unfold added. rewrite mask_pixel_region. fold r.
      destruct (in_region r y x) eqn:Hin; cbn [andb];
        [|rewrite Nat.add_0_r; apply Hcnt].
      unfold in_region in Hin. cbn [r r_y r_x r_h r_w] in Hin.
      repeat (apply andb_true_iff in Hin as [Hin ?]).
      repeat match goal with
             | H : (_ <=? _)%nat = true |- _ => apply Nat.leb_le in H
             | H : (_ <? _)%nat = true |- _ => apply Nat.ltb_lt in H
             end.
      cbn [r r_y r_x].
      rewrite !bidx_lt by lia.
      rewrite (decode_at2 ign mask_shape dt m binim _ _ _ Hwf Hdec) by lia.
      rewrite Hdtype, (Hcnt c pre0 y x), Z.mul_1_r.
      rewrite astype_add by apply packed_bit_01.
      f_equal.
      destruct (packed_bit_01 (getBytes m)
                  ((y - mask_y m) * mask_width m + (x - mask_x m)))
        as [Hbit|Hbit]; rewrite Hbit;
        [change (0 =? 1) with false | change (1 =? 1) with true]; cbv iota;
        lia.
    + replace (bool_decide (c = g) && (bool_decide (pre = pre0) && mask_pixel m y x))
        with false.
      * rewrite Nat.add_0_r. apply Hcnt.
      * symmetry. apply andb_false_iff.
        destruct (decide (c = g)) as [->|Hcg];
          [|left; apply bool_decide_eq_false_2; exact Hcg].
        right. apply andb_false_iff. left. apply bool_decide_eq_false_2.
        intros ->. apply Hne. reflexivity.
Qed.

Lemma run_stack_steps_counted (steps P : list step) (L : ndarray) G :
  nd_shape L = G :: shape_list mask_shape -> nd_dtype L = dt ->
  counted_by dt P L ->
  Forall (stack_step_ok ign mask_shape G) steps ->
  exists L',
    for_each steps (run_stack_step dt) L = (L', Ok tt)
    /\ counted_by dt (P ++ steps) L'.
Proof using Hign.
  revert P L. induction steps as [|s steps IH];
    intros P L Hshape Hdtype Hcnt Hok.
  - exists L. rewrite app_nil_r. split; [reflexivity | exact Hcnt].
  - apply Forall_cons in Hok as [Hs Hok].
    destruct (run_stack_step_counted P L G s Hshape Hdtype Hcnt Hs)
      as (L1 & Hrun & Hshape1 & Hdtype1 & Hcnt1).
    destruct (IH (P ++ [s]) L1 Hshape1 Hdtype1 Hcnt1 Hok) as (L' & Hrest & Hcnt').
    exists L'. split.
    + cbn [for_each]. unfold mbind, ST_bind. rewrite Hrun. exact Hrest.
    + rewrite <- app_assoc in Hcnt'. exact Hcnt'.
Qed.

Lemma count_if_ext {A} (f f' : A -> bool) (l : list A) :
  (forall a, a ∈ l -> f a = f' a) -> count_if f l = count_if f' l.
Proof.
  induction l as [|a l IH]; intros Hl; cbn; [reflexivity|].
  rewrite (Hl a) by apply list_elem_of_here.
  rewrite IH; [reflexivity|]. intros b Hb. apply Hl, list_elem_of_further, Hb.
Qed.

Lemma count_if_fmap {A B} (f : B -> bool) (h : A -> B) (l : list A) :
  count_if f (h <$> l) = count_if (fun a => f (h a)) l.
Proof. induction l as [|a l IH]; cbn; [reflexivity|]. rewrite IH. reflexivity. Qed.

(** The writes of one mask cover a pixel of the slice of its group once
    when the mask covers it, and never otherwise. *)
Lemma hits_mask_steps c (m : Mask) g pre y x :
  hits (mask_steps ign mask_shape c m) g pre y x
  = if bool_decide (c = g) && covers ign mask_shape m pre y x
    then 1%nat else 0%nat.
Proof.
  unfold hits, mask_steps. cbn [count_if step_covers].
  rewrite andb_false_r, Nat.add_0_l, count_if_fmap. cbn [step_count step_covers].
  unfold covers.
  destruct (decide (c = g)) as [->|Hcg].
  - rewrite bool_decide_eq_true_2 by reflexivity. cbn [andb].
    destruct (mask_pixel m y x).
    + rewrite (count_if_ext _ (fun a => bool_decide (pre = a))).
      * rewrite count_if_eq_NoDup by apply mask_planes_NoDup.
        rewrite andb_true_r.
        destruct (decide (pre ∈ mask_planes ign mask_shape m)) as [Hin|Hin].
        -- rewrite bool_decide_eq_true_2 by exact Hin. reflexivity.
        -- rewrite bool_decide_eq_false_2 by exact Hin. reflexivity.
      * intros a _. rewrite ?(bool_decide_eq_true_2 (g = g) eq_refl).
        cbn [andb]. apply andb_true_r.
    + rewrite andb_false_r. apply count_if_none.
      intros a _. rewrite ?andb_false_r. reflexivity.
  - rewrite (bool_decide_eq_false_2 _ Hcg). cbn [andb].
    apply count_if_none. intros a _.
    rewrite ?(bool_decide_eq_false_2 _ Hcg). reflexivity.
Qed.

Lemma hits_group c (shapes : list Mask) g pre y x :
  hits (shapes ≫= mask_steps ign mask_shape c) g pre y x
  = if bool_decide (c = g) then coverage ign mask_shape shapes pre y x
    else 0%nat.
Proof.
  unfold coverage. induction shapes as [|m shapes IH].
  - cbn. destruct (bool_decide (c = g)); reflexivity.
  - rewrite bind_cons. unfold hits in *. rewrite count_if_app.
    fold (hits (mask_steps ign mask_shape c m) g pre y x).
    rewrite hits_mask_steps, IH. cbn [count_if].
    destruct (bool_decide (c = g)); reflexivity.
Qed.

Lemma hits_groups n (masks : list (list Mask)) g pre y x :
  hits (zip (seq n (length masks)) masks
          ≫= fun '(c, shapes) => shapes ≫= mask_steps ign mask_shape c)
       g pre y x
  = match (if decide (n <= g)%nat then masks !! (g - n)%nat else None) with
    | Some shapes => coverage ign mask_shape shapes pre y x
    | None => 0%nat
    end.
Proof.
  revert n. induction masks as [|shapes masks IH]; intros n.
  - cbn. destruct (decide (n <= g)%nat); reflexivity.
  - cbn [length seq zip zip_with]. rewrite bind_cons.
    unfold hits in *. rewrite count_if_app.
    fold (hits (shapes ≫= mask_steps ign mask_shape n) g pre y x).
    rewrite hits_group. unfold zip in IH. rewrite IH.
    destruct (decide (n = g)) as [->|Hng].
    + rewrite bool_decide_eq_true_2 by reflexivity.
      destruct (decide (S g <= g)%nat); [lia|].
      destruct (decide (g <= g)%nat); [|lia].
      rewrite Nat.sub_diag. cbn [lookup list_lookup]. lia.
    + rewrite bool_decide_eq_false_2 by exact Hng.
      destruct (decide (n <= g)%nat) as [Hle|Hle];
        destruct (decide (S n <= g)%nat) as [Hle'|Hle']; try lia.
      replace (g - n)%nat with (S (g - S n)) by lia. reflexivity.
Qed.

Lemma hits_steps_of (masks : list (list Mask)) g shapes pre y x :
  masks !! g = Some shapes ->
  hits (steps_of ign mask_shape masks) g pre y x
  = coverage ign mask_shape shapes pre y x.
Proof.
  intros Hg. pose proof (hits_groups 0 masks g pre y x) as H.
  rewrite decide_True, Nat.sub_0_r, Hg in H by lia. exact H.
Qed.

Lemma steps_of_stack_ok (masks : list (list Mask)) :
  Forall (well_formed ign mask_shape) (concat masks) ->
  Forall (stack_step_ok ign mask_shape (length masks))
         (steps_of ign mask_shape masks).
Proof.
  intros Hwf. rewrite Forall_forall in Hwf. apply Forall_forall.
  intros [m|c m pre] Hs; cbn [stack_step_ok].
  - apply elem_of_steps_of_decode in Hs. apply Hwf, Hs.
  - apply elem_of_steps_of in Hs as (shapes & Hc & Hm & Hpre).
    split; [|split; [exact Hpre|]].
    + apply Hwf, elem_of_concat. exists shapes. split; [|exact Hm].
      apply list_elem_of_lookup. eauto.
    + apply lookup_lt_Some in Hc. exact Hc.
Qed.

End stack_count.

(** X10. [stack_masks] on a fresh array with one slice per group: when every
    mask is well formed it returns, whatever [check_overlaps] is, and every
    entry of slice [g] holds the number of masks of group [g] that cover the
    pixel, stored in the dtype of the array. Overlaps inside a group are
    added up (and wrap when the count leaves the dtype; a boolean array
    holds whether the count is non-zero); masks of other groups do not
    count. *)
Theorem X10_stack_counts_coverage dt (masks : list (list Mask)) mask_shape ign
    chk :
  (0 < length masks)%nat ->
  (forall d, d ∈ ign -> axis mask_shape (DIMENSION_ORDER d) = 1%nat) ->
  Forall (well_formed ign mask_shape) (concat masks) ->
  exists L,
    stack_masks dt masks mask_shape ign chk
                (zeros (length masks :: shape_list mask_shape) dt)
    = (L, Ok tt)
    /\ forall g shapes pre y x,
        masks !! g = Some shapes ->
        nd_data L (g :: pre) y x
        = astype dt (Z.of_nat (coverage ign mask_shape shapes pre y x)).
Proof.
  intros Hpos Hign Hwf.
  rewrite stack_masks_steps by (try reflexivity; assumption).
  destruct (run_stack_steps_counted ign mask_shape dt Hign
              (steps_of ign mask_shape masks) []
              (zeros (length masks :: shape_list mask_shape) dt)
              (length masks)) as (L & Hrun & Hcnt).
  - reflexivity.
  - reflexivity.
  - intros g pre y x. cbn. destruct dt; reflexivity.
  - apply steps_of_stack_ok, Hwf.
  - exists L. split; [exact Hrun|].
    intros g shapes pre y x Hg. rewrite (Hcnt g pre y x). cbn [app].
    rewrite (hits_steps_of ign mask_shape masks g shapes pre y x Hg).
    reflexivity.
Qed.

(** Two groups on one plane of a 3 x 3 image: the two masks of the first
    overlap at (1,1), which holds 2 in its slice; the slice of the second
    group holds 1 there. *)
Lemma X10_stack_witness :
  let m1 := mkMask None None None 0 0 2 2 [Byte.xf0] in
  let m2 := mkMask None None None 1 1 2 2 [Byte.xf0] in
  exists L,
    stack_masks np_int8 [[m1; m2]; [m2]] (1, 1, 1, 3, 3)%nat {[ T; C; Z_ ]}
                true (zeros [2; 1; 1; 1; 3; 3]%nat np_int8)
    = (L, Ok tt)
    /\ nd_data L [0; 0; 0; 0]%nat 1 1 = 2
    /\ nd_data L [1; 0; 0; 0]%nat 1 1 = 1
    /\ nd_data L [1; 0; 0; 0]%nat 0 0 = 0.
Proof.
  intros m1 m2.
  assert (Hwf : forall y x w h bs,
             (w * h <= 8 * length bs)%nat -> (y + h <= 3)%nat -> (x + w <= 3)%nat ->
             well_formed {[ T; C; Z_ ]} (1, 1, 1, 3, 3)%nat
                         (mkMask None None None x y w h bs)).
  { intros y x w h bs Hb Hy Hx. split; [exact Hb|]. split; [exact Hy|].
    split; [exact Hx|]. intros d v Hin Hd. exfalso.
    destruct d; try (apply Hd; vm_compute; reflexivity); not_tcz Hin. }
  destruct (X10_stack_counts_coverage np_int8 [[m1; m2]; [m2]]
              (1, 1, 1, 3, 3)%nat {[ T; C; Z_ ]} true) as (L & Hrun & Hval).
  - cbn. lia.
  - intros d Hd. destruct d; try reflexivity; vm_compute in Hd; discriminate Hd.
  - repeat (apply List.Forall_cons; [apply Hwf; cbn; lia|]).
    apply List.Forall_nil.
  - exists L. split; [exact Hrun|].
    rewrite (Hval 0%nat [m1; m2] [0; 0; 0]%nat 1%nat 1%nat eq_refl).
    rewrite (Hval 1%nat [m2] [0; 0; 0]%nat 1%nat 1%nat eq_refl).
    rewrite (Hval 1%nat [m2] [0; 0; 0]%nat 0%nat 0%nat eq_refl).
    vm_compute. repeat split.
Defined.

(** ** The label map when every line is well formed *)

Lemma parse_line_ok roi_map line name r
    (lm : list (string * list (list Mask))) :
  line_entry roi_map line = Some (name, r) ->
  parse_line roi_map line lm
  = (dict_set name (default [] (dict_get name lm) ++ [r])
       (dict_set name (default [] (dict_get name lm)) lm), Ok tt).
Proof.
  unfold line_entry, parse_line.
  destruct (split_comma (strip line)) as [|sid [|name' [|roi [|? ?]]]];
    try discriminate.
  unfold mbind, res_bind. destruct (py_int roi) as [n|e]; [|discriminate].
  destruct (dict_get n roi_map) as [r'|]; [|discriminate].
  intros [= -> ->]. reflexivity.
Qed.

Lemma group_of_cons name e (entries : list (string * list Mask)) :
  group_of name (e :: entries)
  = if decide (e.1 = name) then e.2 :: group_of name entries
    else group_of name entries.
Proof.
  unfold group_of, omap. cbn [list_omap].
  destruct (decide (e.1 = name)); reflexivity.
Qed.

Lemma parse_lines_ok roi_map (lines : list string)
    (entries : list (string * list Mask))
    (lm0 : list (string * list (list Mask))) :
  Forall2 (fun line e => line_entry roi_map line = Some e) lines entries ->
  exists lm,
    for_each lines (parse_line roi_map) lm0 = (lm, Ok tt)
    /\ (NoDup lm0.*1 -> NoDup lm.*1)
    /\ forall name,
        dict_get name lm
        = if decide (name ∈ entries.*1)
          then Some (default [] (dict_get name lm0) ++ group_of name entries)
          else dict_get name lm0.
Proof.
  intros Hall. revert lm0.
  induction Hall as [|line [nm r] lines entries Hline Hall IH]; intros lm0.
  - exists lm0. split; [reflexivity|]. split; [auto|]. intros name.
    rewrite decide_False by apply not_elem_of_nil. reflexivity.
  - destruct (IH (dict_set nm (default [] (dict_get nm lm0) ++ [r])
                    (dict_set nm (default [] (dict_get nm lm0)) lm0)))
      as (lm & Hrun & Hnd & Hget).
    exists lm. split; [|split].
    + cbn [for_each]. unfold mbind, ST_bind.
      rewrite (parse_line_ok roi_map line nm r lm0 Hline). exact Hrun.
    + intros Hnd0. apply Hnd. do 2 apply dict_set_NoDup. exact Hnd0.
    + intros name. rewrite Hget, group_of_cons. cbn [fmap list_fmap fst snd].
      destruct (decide (nm = name)) as [->|Hne].
      * rewrite dict_get_set_eq. cbn [from_option id].
        rewrite (decide_True (P := name ∈ name :: entries.*1))
          by apply list_elem_of_here.
        destruct (decide (name ∈ entries.*1)) as [Hin|Hin].
        -- rewrite <- app_assoc. reflexivity.
        -- f_equal. f_equal. f_equal. unfold group_of.
           assert (Hnil : forall es : list (string * list Mask),
                      name ∉ es.*1 ->
                      omap (fun e : string * list Mask =>
                              if decide (e.1 = name) then Some e.2 else None) es
                      = []).
           { induction es as [|e es IHes]; [reflexivity|]. cbn.
             intros [Hne Hes]%not_elem_of_cons.
             rewrite decide_False by congruence. apply IHes, Hes. }
           rewrite (Hnil entries Hin). reflexivity.
      * rewrite !dict_get_set_ne by exact Hne.
        destruct (decide (name ∈ entries.*1)) as [Hin|Hin].
        -- rewrite decide_True by (apply list_elem_of_further, Hin). reflexivity.
        -- rewrite decide_False; [reflexivity|].
           intros [?|?]%elem_of_cons; [congruence|contradiction].
Qed.

(** X11. A label map whose lines are all well formed (three fields, the
    third the id of a ROI that has masks) is read to the end without an
    exception. The dictionary it gives has one entry for each group name
    that occurs, and the entry of a name holds the ROIs of the lines with
    that name, in the order of the lines: a ROI named on two lines is there
    twice, and a name on no line has no entry. The driver then saves one
    array for every entry. *)
Theorem X11_label_map_groups (roi_map : list (Z * list Mask))
    (lines : list string) (entries : list (string * list Mask)) :
  Forall2 (fun line e => line_entry roi_map line = Some e) lines entries ->
  exists lm,
    read_label_map roi_map lines = (lm, Ok tt)
    /\ NoDup lm.*1
    /\ (forall name,
          dict_get name lm
          = if decide (name ∈ entries.*1) then Some (group_of name entries)
            else None)
    /\ (forall image_shape rois args dt root,
          collect_masks rois = roi_map -> roi_map <> [] ->
          style args <> "split" ->
          label_map args = Some lines ->
          select_dtype args = Ok dt ->
          image_masks_to_zarr image_shape rois args root
          = for_each lm
              (fun '(name, values) =>
                 save (mkSaver dt (label_path args) (style args) image_shape
                               (source_image_found args)) values name)
              root).
Proof.
  intros Hall.
  destruct (parse_lines_ok roi_map lines entries [] Hall)
    as (lm & Hrun & Hnd & Hget).
  exists lm. split; [exact Hrun|]. split; [apply Hnd; constructor|].
  split; [exact Hget|].
  intros image_shape rois args dt root Hmasks Hne Hstyle Hmap Hdt.
  unfold image_masks_to_zarr. unfold mbind at 1. unfold ST_bind, lift.
  rewrite Hdt, Hmasks.
  destruct roi_map as [|entry roi_map']; [contradiction|].
  cbn [length Nat.ltb Nat.leb].
  rewrite bool_decide_eq_false_2 by exact Hstyle.
  rewrite Hmap. unfold read_label_map in Hrun. unfold read_label_map.
  rewrite Hrun. reflexivity.
Qed.

(** Two ROIs and three lines: ROI 11 is in both groups, and the group
    "cells" holds the ROIs 10 and 11 in the order of the lines. *)
Lemma X11_label_map_witness :
  let m := mkMask None None None 0 0 1 1 [Byte.x80] in
  let m' := mkMask None None None 1 1 1 1 [Byte.x80] in
  exists lm,
    read_label_map [(10, [m]); (11, [m'])]
                   ["1,cells,10"; " 2,nuclei,11"; "3,cells,11 "]
    = (lm, Ok tt)
    /\ dict_get "cells" lm = Some [[m]; [m']]
    /\ dict_get "nuclei" lm = Some [[m']]
    /\ dict_get "other" lm = None.
Proof.
  intros m m'.
  destruct (X11_label_map_groups [(10, [m]); (11, [m'])]
              ["1,cells,10"; " 2,nuclei,11"; "3,cells,11 "]
              [("cells", [m]); ("nuclei", [m']); ("cells", [m'])])
    as (lm & Hrun & _ & Hget & _).
  - repeat (apply List.Forall2_cons; [vm_compute; reflexivity|]).
    apply List.Forall2_nil.
  - exists lm. split; [exact Hrun|]. rewrite !Hget. repeat split.
Defined.

(** ** One array per ROI: the style "split" *)

Lemma save_dataset_frame (self : MaskSaver) (masks : list (list Mask)) name
    (root : store) p n :
  p <> self_path self \/ n <> name ->
  dataset (fst (save self masks name root)) p n = dataset root p n.
Proof.
  intros Hpn. unfold save. destruct (source_found self); cbn [negb]; [|done].
  assert (Hd : forall a,
             dataset (put_array self name a
                        (match root !! self_path self with
                         | Some _ => root
                         | None => <[self_path self := mkGroup ∅ None]> root
                         end)) p n = dataset root p n).
  { intros a. rewrite dataset_put_array, decide_False by tauto.
    apply dataset_create_group. }
  destruct (mask_shape_of _ _) as [ms|];
    destruct (_ || _);
    try destruct (bool_decide (self_style self = "6d"));
    try destruct (masks_to_labels _ _ _ _ _ _) as [za [[]|e]];
    try destruct (stack_masks _ _ _ _ _ _) as [za [[]|e]];
    cbn [fst]; rewrite ?dataset_register;
    first [apply Hd | apply dataset_create_group].
Qed.

(** A [save] in the style "split" that returns: [mask_shape] was bound, the
    label compositor returned, and its array is stored under [path/name]. *)
Lemma save_split_ok (self : MaskSaver) (masks : list (list Mask)) name
    (root root1 : store) :
  self_style self = "split" ->
  save self masks name root = (root1, Ok tt) ->
  exists mask_shape L,
    mask_shape_of (image_shape self) (ignored_dimensions_of masks)
    = Some mask_shape
    /\ masks_to_labels (self_dtype self) masks mask_shape
                       (ignored_dimensions_of masks) true
                       (zeros (shape_list mask_shape) (self_dtype self))
       = (L, Ok tt)
    /\ dataset root1 (self_path self) name = Some L.
Proof.
  intros Hstyle. unfold save. rewrite Hstyle.
  destruct (source_found self); cbn [negb]; [|discriminate].
  rewrite (bool_decide_eq_true_2 ("split" = "split")) by reflexivity.
  rewrite orb_true_r.
  destruct (mask_shape_of _ _) as [ms|]; [|discriminate].
  destruct (masks_to_labels _ _ _ _ _ _) as [za [[]|e]] eqn:Hrun;
    [|discriminate].
  intros [= <-]. exists ms, za. split; [reflexivity|]. split; [exact Hrun|].
  rewrite dataset_register, dataset_put_array, decide_True by done.
  destruct (lookup_create_group root (self_path self)) as (g & -> & _).
  reflexivity.
Qed.

Lemma split_loop_arrays (self : MaskSaver) (l : list (Z * list Mask))
    (root root' : store) :
  self_style self = "split" ->
  NoDup l.*1 ->
  for_each l (fun '(roi_id, roi) => save self [roi] (pretty roi_id)) root
  = (root', Ok tt) ->
  forall roi_id roi,
    (roi_id, roi) ∈ l ->
    exists mask_shape L,
      mask_shape_of (image_shape self) (ignored_dimensions_of [roi])
      = Some mask_shape
      /\ masks_to_labels (self_dtype self) [roi] mask_shape
                         (ignored_dimensions_of [roi]) true
                         (zeros (shape_list mask_shape) (self_dtype self))
         = (L, Ok tt)
      /\ dataset root' (self_path self) (pretty roi_id) = Some L.
Proof.
  intros Hstyle. revert root.
  induction l as [|[id0 roi0] l IH]; intros root Hnd Hrun roi_id roi Hin.
  - apply elem_of_nil in Hin. destruct Hin.
  - cbn [fmap list_fmap fst] in Hnd. apply NoDup_cons in Hnd as [Hid0 Hnd].
    cbn [for_each] in Hrun. unfold mbind, ST_bind in Hrun.
    destruct (save self [roi0] (pretty id0) root) as [root1 [[]|e]] eqn:Hsave;
      [|discriminate Hrun].
    apply elem_of_cons in Hin as [[= -> ->]|Hin];
      [|apply (IH root1 Hnd Hrun roi_id roi Hin)].
    destruct (save_split_ok self [roi0] (pretty id0) root root1 Hstyle Hsave)
      as (ms & L & Hms & HL & Hds).
    exists ms, L. split; [exact Hms|]. split; [exact HL|].
    set (P := fun t : store => dataset t (self_path self) (pretty id0) = Some L).
    eapply (for_each_preserves_elem P); [|exact Hrun|exact Hds].
    intros [id1 roi1] t t' r' Hx Hbody. unfold P. intros Ht.
    replace t' with (fst (save self [roi1] (pretty id1) t))
      by (rewrite Hbody; reflexivity).
    rewrite save_dataset_frame; [exact Ht|]. right.
    intros Heq. apply (inj pretty) in Heq. subst id1.
    apply Hid0. apply list_elem_of_fmap. exists (id0, roi1). done.
Qed.

(** X12. The style "split", when the driver returns: every ROI that has
    masks got an array of its own, stored under the decimal string of its
    id, and that array is the one the label compositor fills from the masks
    of that ROI alone on a fresh array (so the ROI is labelled 1 in it). The
    arrays of the ROIs saved earlier are not touched by the later saves. *)
Theorem X12_split_one_array_per_roi image_shape (rois : list ROI)
    (args : Args) dt (root root' : store) :
  style args = "split" ->
  select_dtype args = Ok dt ->
  image_masks_to_zarr image_shape rois args root = (root', Ok tt) ->
  forall roi_id roi,
    (roi_id, roi) ∈ collect_masks rois ->
    exists mask_shape L,
      mask_shape_of image_shape (ignored_dimensions_of [roi]) = Some mask_shape
      /\ masks_to_labels dt [roi] mask_shape (ignored_dimensions_of [roi]) true
                         (zeros (shape_list mask_shape) dt)
         = (L, Ok tt)
      /\ dataset root' (label_path args) (pretty roi_id) = Some L.
Proof.
  intros Hstyle Hdt. unfold image_masks_to_zarr.
  unfold mbind at 1. unfold ST_bind, lift. rewrite Hdt.
  intros Hrun roi_id roi Hin.
  destruct (collect_masks rois) as [|entry masks] eqn:Hmasks;
    [apply elem_of_nil in Hin; destruct Hin|].
  cbn [length Nat.ltb Nat.leb] in Hrun.
  rewrite bool_decide_eq_true_2 in Hrun by exact Hstyle.
  apply (split_loop_arrays
           (mkSaver dt (label_path args) (style args) image_shape
                    (source_image_found args))
           (entry :: masks) root root' Hstyle); [|exact Hrun|exact Hin].
  rewrite <- Hmasks. apply collect_masks_keys.
Qed.

(** Two ROIs with one mask each on a 2 x 2 plane: the arrays "7" and "5"
    hold the pixel of their own ROI as 1 and the pixel of the other as 0. *)
Lemma X12_split_witness :
  let m := mkMask None None None 0 0 1 1 [Byte.x80] in
  let m' := mkMask None None None 1 1 1 1 [Byte.x80] in
  let r := image_masks_to_zarr (1, 1, 1, 2, 2)%nat
             [mkROI 7 [MaskI m]; mkROI 5 [OtherShape; MaskI m']]
             (mkArgs "8" "split" "labels" "0" None true) ∅ in
  exists L7 L5,
    dataset (fst r) "labels" "7" = Some L7
    /\ dataset (fst r) "labels" "5" = Some L5
    /\ nd_data L7 [0; 0; 0]%nat 0 0 = 1 /\ nd_data L7 [0; 0; 0]%nat 1 1 = 0
    /\ nd_data L5 [0; 0; 0]%nat 0 0 = 0 /\ nd_data L5 [0; 0; 0]%nat 1 1 = 1.
Proof.
  intros m m' r.
  assert (Hr : r = (fst r, Ok tt)).
  { apply injective_projections; [reflexivity | vm_compute; reflexivity]. }
  pose proof (X12_split_one_array_per_roi (1, 1, 1, 2, 2)%nat
                [mkROI 7 [MaskI m]; mkROI 5 [OtherShape; MaskI m']]
                (mkArgs "8" "split" "labels" "0" None true)
                np_int8 ∅ (fst r) eq_refl eq_refl Hr) as H.
  destruct (H 7 [m]) as (ms7 & L7 & Hms7 & HL7 & Hd7);
    [apply list_elem_of_here|].
  destruct (H 5 [m']) as (ms5 & L5 & Hms5 & HL5 & Hd5);
    [apply list_elem_of_further, list_elem_of_here|].
  exists L7, L5. split; [exact Hd7|]. split; [exact Hd5|].
  assert (Hms : forall roi : list Mask,
             roi = [m] \/ roi = [m'] ->
             mask_shape_of (1, 1, 1, 2, 2)%nat (ignored_dimensions_of [roi])
             = Some (1, 1, 1, 2, 2)%nat).
  { intros roi [-> | ->]; vm_compute; reflexivity. }
  rewrite (Hms [m]) in Hms7 by auto. rewrite (Hms [m']) in Hms5 by auto.
  injection Hms7 as <-. injection Hms5 as <-.
  apply (f_equal fst) in HL7, HL5. cbn [fst] in HL7, HL5. subst L7 L5.
  vm_compute. repeat split.
Defined.

(** ** A label-map line that opens a group and then fails *)



(** ** From [save] to the stored array *)







(** ** The dtype the driver selects *)


(** The bit depth "01" with style "labeled": the boolean dtype is selected,
    where "1" gives the 64-bit one. *)
Lemma select_dtype_spelling :
  select_dtype (mkArgs "01" "labeled" "labels" "0" None true) = Ok np_bool
  /\ select_dtype (mkArgs "1" "labeled" "labels" "0" None true) = Ok np_int64.
Proof. split; vm_compute; reflexivity. Qed.
